(** * privacy-sweep: the identity parser, the link scorer, the per-site
      extraction and the aggregation of [pdr_scanner.py]

    A shallow embedding of the pure core of [pdr_scanner.py] and the proofs of
    its specification.

    Modelling conventions.
    - A Python [str] is a list of characters ([list ascii]).  The character
      tables ([str.isspace], [str.isalpha], [\w], [\d], [\s], [str.upper],
      [str.lower]) are CPython's on U+0000..U+007F; the remaining values of
      [ascii] are classified as symbols (neither space, letter nor digit).
    - The patterns [EMAIL_RE] and [PHONE_RE] are regular expressions run by a
      backtracking matcher with the priorities of Python's [re] (greedy
      quantifiers, leftmost match, [findall] without overlap).
    - Operations that can raise in Python (indexing) return a [result].
    - A Python [float] is an IEEE-754 binary64 number ([spec_float] with
      53 bits of precision), added and compared by [SFadd] and [SFcompare].
    - A Python [dict] is an association list in insertion order. *)

From Stdlib Require Import Ascii String List ZArith Bool Arith Lia.
From Stdlib Require Import Sorted Permutation.
From Stdlib Require Import Floats.SpecFloat.
Import ListNotations.

Set Implicit Arguments.

(* ================================================================== *)
(** * Python strings *)

Definition str := list ascii.

(** A string literal of the source. *)
Definition py (s : string) : str := list_ascii_of_string s.

Definition code (c : ascii) : nat := nat_of_ascii c.

Definition in_range (lo hi : nat) (c : ascii) : bool :=
  (lo <=? code c) && (code c <=? hi).

(** [str.isspace] on one character, also the class [\s]. *)
Definition isspace (c : ascii) : bool :=
  in_range 9 13 c || in_range 28 32 c.

(** The class [\d] ([str.isdecimal] on one character). *)
Definition isdigit (c : ascii) : bool := in_range 48 57 c.

Definition isupper (c : ascii) : bool := in_range 65 90 c.
Definition islower (c : ascii) : bool := in_range 97 122 c.

(** [str.isalpha] on one character. *)
Definition isalpha_char (c : ascii) : bool := isupper c || islower c.

(** The class [\w]. *)
Definition isword (c : ascii) : bool :=
  isalpha_char c || isdigit c || Ascii.eqb c "_".

Definition upper_char (c : ascii) : ascii :=
  if islower c then ascii_of_nat (code c - 32) else c.

Definition lower_char (c : ascii) : ascii :=
  if isupper c then ascii_of_nat (code c + 32) else c.

(** [s.upper()], [s.lower()] *)
Definition upper (s : str) : str := map upper_char s.
Definition lower (s : str) : str := map lower_char s.

(** [s.isalpha()]: every character is a letter and there is at least one. *)
Definition isalpha (s : str) : bool :=
  match s with
  | [] => false
  | _ => forallb isalpha_char s
  end.

(** [s.capitalize()] *)
Definition capitalize (s : str) : str :=
  match s with
  | [] => []
  | c :: s' => upper_char c :: lower s'
  end.

Fixpoint str_eqb (a b : str) : bool :=
  match a, b with
  | [], [] => true
  | x :: a', y :: b' => Ascii.eqb x y && str_eqb a' b'
  | _, _ => false
  end.

(** [a < b] on strings: lexicographic on code points. *)
Fixpoint str_ltb (a b : str) : bool :=
  match a, b with
  | _, [] => false
  | [], _ :: _ => true
  | x :: a', y :: b' =>
      if code x <? code y then true
      else if code y <? code x then false
      else str_ltb a' b'
  end.

(** Truthiness of a string or list: non-empty. *)
Definition truthy {A} (l : list A) : bool :=
  match l with [] => false | _ => true end.

(** [x or None] for a string [x]. *)
Definition or_None (x : str) : option str :=
  if truthy x then Some x else None.

(** [s.startswith(p)] *)
Fixpoint startswith (p s : str) : bool :=
  match p, s with
  | [], _ => true
  | _ :: _, [] => false
  | x :: p', y :: s' => Ascii.eqb x y && startswith p' s'
  end.

(** [x in s] for strings: [x] occurs in [s] as a contiguous block. *)
Fixpoint contains (x s : str) : bool :=
  startswith x s ||
  match s with
  | [] => false
  | _ :: s' => contains x s'
  end.

(** [x in l] for a list or set of strings. *)
Definition mem (x : str) (l : list str) : bool := existsb (str_eqb x) l.

(** [l[i:]] with Python's clamping of the bound. *)
Definition slice_from {A} (i : Z) (l : list A) : list A :=
  let n := Z.of_nat (length l) in
  let i' := if (i <? 0)%Z then Z.max (n + i) 0 else Z.min i n in
  skipn (Z.to_nat i') l.

(** [l[:j]] with Python's clamping of the bound. *)
Definition slice_to {A} (j : Z) (l : list A) : list A :=
  let n := Z.of_nat (length l) in
  let j' := if (j <? 0)%Z then Z.max (n + j) 0 else Z.min j n in
  firstn (Z.to_nat j') l.

(** Exceptions and results. *)
Inductive exn : Type := IndexError | ValueError.

Inductive result (A : Type) : Type :=
| Ok (a : A)
| Raise (e : exn).

Arguments Ok {A} a.
Arguments Raise {A} e.

Definition bind {A B} (m : result A) (f : A -> result B) : result B :=
  match m with
  | Ok a => f a
  | Raise e => Raise e
  end.

Notation "x <- m ;; k" := (bind m (fun x => k))
  (at level 61, m at next level, right associativity).

(** [l[i]]: raises [IndexError] out of range, counts from the end when
    [i] is negative. *)
Definition index {A} (l : list A) (i : Z) : result A :=
  let n := Z.of_nat (length l) in
  let i' := if (i <? 0)%Z then (n + i)%Z else i in
  if ((0 <=? i') && (i' <? n))%Z then
    match nth_error l (Z.to_nat i') with
    | Some a => Ok a
    | None => Raise IndexError
    end
  else Raise IndexError.

(** [sep.join(l)] *)
Fixpoint join (sep : str) (l : list str) : str :=
  match l with
  | [] => []
  | [x] => x
  | x :: l' => x ++ sep ++ join sep l'
  end.

(** [s.split()]: the maximal runs of non-space characters.  [cur] holds the
    characters of the run being read, last one first. *)
Fixpoint split_run (cur : str) (s : str) : list str :=
  match s with
  | [] => match cur with [] => [] | _ => [rev cur] end
  | c :: s' =>
      if isspace c then
        match cur with
        | [] => split_run [] s'
        | _ => rev cur :: split_run [] s'
        end
      else split_run (c :: cur) s'
  end.

Definition split (s : str) : list str := split_run [] s.

(** [s.split(sep)] for a separator of one character. *)
Fixpoint split_on (sep : ascii) (s : str) : list str :=
  match s with
  | [] => [[]]
  | c :: s' =>
      if Ascii.eqb c sep then [] :: split_on sep s'
      else match split_on sep s' with
           | t :: r => (c :: t) :: r
           | [] => [[c]]
           end
  end.

Fixpoint lstrip (s : str) : str :=
  match s with
  | c :: s' => if isspace c then lstrip s' else s
  | [] => []
  end.

Definition rstrip (s : str) : str := rev (lstrip (rev s)).

(** [s.strip()] *)
Definition strip (s : str) : str := rstrip (lstrip s).

(** [s.replace(old, new)]: every occurrence of [old], found from the left
    without overlap, becomes [new].  [skip] counts the characters of an
    occurrence that remain to be passed over.  With an empty [old], [new] is
    put before every character and at the end. *)
Fixpoint replace_from (old new : str) (skip : nat) (s : str) : str :=
  match s with
  | [] => []
  | c :: s' =>
      match skip with
      | S n => replace_from old new n s'
      | O =>
          if startswith old s
          then new ++ replace_from old new (length old - 1) s'
          else c :: replace_from old new 0 s'
      end
  end.

Fixpoint intersperse (new : str) (s : str) : str :=
  match s with
  | [] => new
  | c :: s' => new ++ c :: intersperse new s'
  end.

Definition replace (s old new : str) : str :=
  match old with
  | [] => intersperse new s
  | _ => replace_from old new 0 s
  end.

(* ================================================================== *)
(** * Regular expressions *)

(** The fragment of [re] that the two patterns use: a character class, a
    sequence, a greedy [?] and a greedy [+] on a character class. *)
Inductive regex : Type :=
| Eps
| Cls (p : ascii -> bool)
| Cat (r1 r2 : regex)
| Opt (r : regex)
| Plus (p : ascii -> bool).

(** [r{n}] *)
Fixpoint times (n : nat) (r : regex) : regex :=
  match n with
  | O => Eps
  | S n' => Cat r (times n' r)
  end.

Definition Chr (c : ascii) : regex := Cls (Ascii.eqb c).

(** The words that a regular expression denotes. *)
Inductive re_lang : regex -> str -> Prop :=
| L_eps : re_lang Eps []
| L_cls : forall p c, p c = true -> re_lang (Cls p) [c]
| L_cat : forall r1 r2 w1 w2,
    re_lang r1 w1 -> re_lang r2 w2 -> re_lang (Cat r1 r2) (w1 ++ w2)
| L_opt_skip : forall r, re_lang (Opt r) []
| L_opt_take : forall r w, re_lang r w -> re_lang (Opt r) w
| L_plus : forall p w,
    w <> [] -> Forall (fun c => p c = true) w -> re_lang (Plus p) w.

(** The backtracking matcher, in continuation-passing style: [k] receives
    what is left of the text and answers [None] to ask for the next
    alternative.  Alternatives are tried in the order of [re]: the longer
    repetition first, the optional part present first. *)
Fixpoint plus_more {A} (p : ascii -> bool) (s : str)
    (k : str -> option A) : option A :=
  match s with
  | c :: s' =>
      if p c then
        match plus_more p s' k with
        | Some x => Some x
        | None => k s
        end
      else k s
  | [] => k []
  end.

Fixpoint rmatch {A} (r : regex) (s : str) (k : str -> option A) : option A :=
  match r with
  | Eps => k s
  | Cls p =>
      match s with
      | c :: s' => if p c then k s' else None
      | [] => None
      end
  | Cat r1 r2 => rmatch r1 s (fun s' => rmatch r2 s' k)
  | Opt r1 =>
      match rmatch r1 s k with
      | Some x => Some x
      | None => k s
      end
  | Plus p =>
      match s with
      | c :: s' => if p c then plus_more p s' k else None
      | [] => None
      end
  end.

(** The match of [r] at the start of [s], as the text left after it. *)
Definition match_at (r : regex) (s : str) : option str :=
  rmatch r s (fun rest => Some rest).

(** [r.findall(s)] for a pattern without groups: the matches from left to
    right, each search starting where the previous match ended.  [skip]
    counts the characters of the last match that remain to be passed over. *)
Fixpoint findall_from (r : regex) (skip : nat) (s : str) : list str :=
  match skip with
  | S n =>
      match s with
      | [] => []
      | _ :: s' => findall_from r n s'
      end
  | O =>
      match match_at r s with
      | Some rest =>
          let n := length s - length rest in
          firstn n s ::
            match s with
            | [] => []
            | _ :: s' => findall_from r (n - 1) s'
            end
      | None =>
          match s with
          | [] => []
          | _ :: s' => findall_from r 0 s'
          end
      end
  end.

Definition findall (r : regex) (s : str) : list str := findall_from r 0 s.

(** [re.sub(r'\D', '', p)] *)
Definition sub_nondigit (p : str) : str := filter isdigit p.

(* ================================================================== *)
(** * The patterns and the region codes *)

(** [[\w\.-]] *)
Definition email_char (c : ascii) : bool :=
  isword c || Ascii.eqb c "." || Ascii.eqb c "-".

(** [[-.\s]] *)
Definition phone_sep (c : ascii) : bool :=
  Ascii.eqb c "-" || Ascii.eqb c "." || isspace c.

(** [[\w\.-]+@[\w\.-]+\.\w+] *)
Definition EMAIL_RE : regex :=
  Cat (Plus email_char)
   (Cat (Chr "@")
    (Cat (Plus email_char)
     (Cat (Chr ".") (Plus isword)))).

(** [(?:(?:\+?1[-.\s]?)?\(?\d{3}\)?[-.\s]?\d{3}[-.\s]?\d{4})] *)
Definition PHONE_RE : regex :=
  Cat (Opt (Cat (Opt (Chr "+")) (Cat (Chr "1") (Opt (Cls phone_sep)))))
   (Cat (Opt (Chr "("))
    (Cat (times 3 (Cls isdigit))
     (Cat (Opt (Chr ")"))
      (Cat (Opt (Cls phone_sep))
       (Cat (times 3 (Cls isdigit))
        (Cat (Opt (Cls phone_sep))
             (times 4 (Cls isdigit)))))))).

Definition STATE_ABBR : list str :=
  split (py "AL AK AZ AR CA CO CT DE FL GA HI ID IL IN IA KS KY LA ME MD MA
MI MN MS MO MT NE NV NH NJ NM NY NC ND OH OK OR PA RI SC SD TN TX UT VT VA WA WV WI WY DC").

(* ================================================================== *)
(** * The identity parser *)

Record QueryParts : Type := {
  name : str;
  city : option str;
  state : option str;
  emails : list str;
  phones : list str;
  raw : str
}.

(** The working text of [smart_parse] after the two removal loops. *)
Definition residual (query : str) : str :=
  let emails := findall EMAIL_RE query in
  let work := query in
  let work := fold_left (fun work e => replace work e (py " ")) emails work in
  fold_left (fun work p => replace work p (py " ")) (findall PHONE_RE query) work.

(** The loop over [parts[1:]], left at the first segment whose last token
    is a region code. *)
Fixpoint scan_state (segs : list str) : result (option str * option str) :=
  match segs with
  | [] => Ok (None, None)
  | seg :: segs' =>
      let tokens := split (replace seg (py ".") (py " ")) in
      if truthy tokens then
        last_tok <- index tokens (-1) ;;
        let maybe_state := upper last_tok in
        if mem maybe_state STATE_ABBR
        then Ok (or_None (join (py " ") (slice_to (-1) tokens)), Some maybe_state)
        else scan_state segs'
      else scan_state segs'
  end.

(** [[p.strip() for p in work.split(',') if p.strip()]] *)
Definition parts_of (work : str) : list str :=
  map strip (filter (fun p => truthy (strip p)) (split_on "," work)).

Definition smart_parse (query : str) : result QueryParts :=
  let emails := findall EMAIL_RE query in
  let phones :=
    map (fun p => slice_from (-10) (sub_nondigit p)) (findall PHONE_RE query) in
  let work := residual query in
  let parts := parts_of work in
  ncs <-
    (if truthy parts then
       let candidates :=
         filter (fun seg => (2 <=? length (split seg)) && (length (split seg) <=? 4))
                parts in
       name <- (if truthy candidates then index candidates 0 else index parts 0) ;;
       cs <- scan_state (slice_from 1 parts) ;;
       Ok (name, cs)
     else Ok ([], (None, None))) ;;
  let '(name, (city, state)) := ncs in
  let name :=
    join (py " ")
      (map (fun w => if isalpha w then capitalize w else w) (split name)) in
  Ok {| name := name; city := city; state := state;
        emails := emails; phones := phones; raw := query |}.

(* ================================================================== *)
(** * Floating-point numbers *)

(** Python's [float] is binary64: 53 bits of precision, exponents below
    1024. *)
Definition prec : Z := 53.
Definition emax : Z := 1024.

Definition float := spec_float.

Definition fadd : float -> float -> float := SFadd prec emax.
Definition fltb : float -> float -> bool := SFltb.
Definition fleb : float -> float -> bool := SFleb.
Definition feqb : float -> float -> bool := SFeqb.

(** The float of an integer, and the float nearest to [n / d], which is what
    a decimal literal of the source denotes. *)
Definition of_Z (n : Z) : float := binary_normalize prec emax n 0 false.
Definition decimal (n d : Z) : float := SFdiv prec emax (of_Z n) (of_Z d).

(** The literals [0.0], [1.0], [0.10], [0.15], [0.20] and [0.4]. *)
Definition f0_0 : float := S754_zero false.
Definition f1_0 : float := Eval vm_compute in of_Z 1.
Definition f0_10 : float := Eval vm_compute in decimal 10 100.
Definition f0_15 : float := Eval vm_compute in decimal 15 100.
Definition f0_20 : float := Eval vm_compute in decimal 20 100.
Definition f0_4 : float := Eval vm_compute in decimal 4 10.

(** [min(a, b)]: [b] when [b < a], otherwise [a]. *)
Definition fmin (a b : float) : float := if fltb b a then b else a.

(** [sorted(l, key=key, reverse=True)] and [l.sort(key=key, reverse=True)],
    with [lt] the comparison [<] of the keys: the stable sort into
    non-increasing keys.  Each element is put before the elements behind it
    that do not exceed it. *)
Fixpoint insert_desc {A K} (lt : K -> K -> bool) (key : A -> K)
    (x : A) (l : list A) : list A :=
  match l with
  | [] => [x]
  | y :: l' =>
      if lt (key x) (key y) then y :: insert_desc lt key x l' else x :: l
  end.

Definition sort_reverse {A K} (lt : K -> K -> bool) (key : A -> K)
    (l : list A) : list A :=
  fold_right (insert_desc lt key) [] l.

(* ================================================================== *)
(** * The link scorer *)

Record ResultItem : Type := {
  site : str;
  title : str;
  url : str;
  score : float;
  matched_fields : list str
}.

(** One [if c: score += w; matched.append(m)] of the scorer. *)
Definition bump (c : bool) (w : float) (m : str)
    (acc : float * list str) : float * list str :=
  if c then (fadd (fst acc) w, snd acc ++ [m]) else acc.

Definition score_link_text (text link : str) (q : QueryParts)
    : float * list str :=
  let hay := lower (text ++ py " " ++ link) in
  let acc := (f0_0, []) in
  let acc :=
    fold_left (fun acc tok => bump (truthy tok && contains tok hay) f0_15 tok acc)
              (split (lower (name q))) acc in
  let acc :=
    match city q with
    | Some c => bump (truthy c && contains (lower c) hay) f0_15 c acc
    | None => acc
    end in
  let acc :=
    match state q with
    | Some s => bump (truthy s && contains (lower s) hay) f0_10 s acc
    | None => acc
    end in
  let acc :=
    fold_left (fun acc em =>
                 let user := lower (hd [] (split_on "@" em)) in
                 bump (contains user hay) f0_20 em acc)
              (emails q) acc in
  let acc :=
    fold_left (fun acc ph =>
                 let last4 := slice_from (-4) ph in
                 bump (truthy last4 && contains last4 hay) f0_20
                      (py "*" ++ last4) acc)
              (phones q) acc in
  (fmin (fst acc) f1_0, snd acc).

(* ================================================================== *)
(** * The per-site extraction *)

Fixpoint list_eqb (a b : list str) : bool :=
  match a, b with
  | [], [] => true
  | x :: a', y :: b' => str_eqb x y && list_eqb a' b'
  | _, _ => false
  end.

(** An anchor of the fetched page: [a["href"]] and [a.get_text()]. *)
Record anchor : Type := {
  href : str;
  get_text : str
}.

Section Scrape.

(** The optional imports [httpx] and [bs4] succeeded. *)
Variable httpx_present : bool.
Variable BeautifulSoup_present : bool.

(** The request and the parse of the page: the anchors with an [href] of the
    page at an address, or the exception of [client.get],
    [raise_for_status] or [BeautifulSoup]. *)
Variable fetch : str -> result (list anchor).

(** [urlparse(x).netloc], which raises [ValueError] on a malformed
    address. *)
Variable netloc : str -> result str.

(** The body of the loop over the anchors, [None] standing for
    [continue]. *)
Definition scrape_anchor (site0 domain : str) (q : QueryParts)
    (seen : list str) (a : anchor) : result (option (str * option ResultItem)) :=
  let href := href a in
  if startswith (py "#") href then Ok None else
  parsed_netloc <- netloc href ;;
  host <- index (split_on ":" (if truthy parsed_netloc then parsed_netloc else domain)) 0 ;;
  if negb (list_eqb (slice_from (-2) (split_on "." domain))
                    (slice_from (-2) (split_on "." host)))
  then Ok None else
  let full :=
    if truthy parsed_netloc then href else py "https://" ++ domain ++ href in
  if mem full seen then Ok None else
  let text := strip (get_text a) in
  let '(score, matched) := score_link_text text full q in
  if fleb f0_4 score
  then Ok (Some (full, Some {| site := site0; title := slice_to 120 text;
                              url := full; score := score;
                              matched_fields := matched |}))
  else Ok (Some (full, None)).

Fixpoint scrape_loop (site0 domain : str) (q : QueryParts)
    (seen : list str) (out : list ResultItem) (anchors : list anchor)
    : result (list ResultItem) :=
  match anchors with
  | [] => Ok out
  | a :: anchors' =>
      r <- scrape_anchor site0 domain q seen a ;;
      match r with
      | None => scrape_loop site0 domain q seen out anchors'
      | Some (full, None) =>
          scrape_loop site0 domain q (full :: seen) out anchors'
      | Some (full, Some item) =>
          scrape_loop site0 domain q (full :: seen) (out ++ [item]) anchors'
      end
  end.

(** The body of the [try] block. *)
Definition scrape_try (site0 link : str) (q : QueryParts)
    : result (list ResultItem) :=
  anchors <- fetch link ;;
  nl <- netloc link ;;
  domain <- index (split_on ":" nl) 0 ;;
  out <- scrape_loop site0 domain q [] [] anchors ;;
  Ok (slice_to 15 (sort_reverse fltb score out)).

Definition best_effort_scrape (site0 link : str) (q : QueryParts)
    : list ResultItem :=
  if negb httpx_present || negb BeautifulSoup_present then []
  else match scrape_try site0 link q with
       | Ok items => items
       | Raise _ => []
       end.

End Scrape.

(* ================================================================== *)
(** * The aggregation at the end of [main] *)

(** [d[k] = v] on a dictionary kept in insertion order. *)
Fixpoint dict_set {V} (k : str) (v : V) (d : list (str * V))
    : list (str * V) :=
  match d with
  | [] => [(k, v)]
  | (k', v') :: d' =>
      if str_eqb k k' then (k', v) :: d' else (k', v') :: dict_set k v d'
  end.

(** [d.values()] *)
Definition values {V} (d : list (str * V)) : list V := map snd d.

(** [{it.url: it for it in rows}] *)
Definition uniq (rows : list ResultItem) : list (str * ResultItem) :=
  fold_left (fun d it => dict_set (url it) it d) rows [].

(** [<] on the keys [(x.score, x.site)]: tuples compare by their first
    unequal components. *)
Definition key_ltb (a b : float * str) : bool :=
  if feqb (fst a) (fst b) then str_ltb (snd a) (snd b)
  else fltb (fst a) (fst b).

(** The rows of the per-site extractions, put together in the order of the
    sites, made unique by address and sorted. *)
Definition aggregate (per_site : list (list ResultItem)) : list ResultItem :=
  let rows := concat per_site in
  sort_reverse key_ltb (fun x => (score x, site x)) (values (uniq rows)).

(* ================================================================== *)
(** * Notions of the specification *)

(** Every character of every word of [r] satisfies [P]. *)
Fixpoint re_chars (P : ascii -> Prop) (r : regex) : Prop :=
  match r with
  | Eps => True
  | Cls p => forall c, p c = true -> P c
  | Cat r1 r2 => re_chars P r1 /\ re_chars P r2
  | Opt r1 => re_chars P r1
  | Plus p => forall c, p c = true -> P c
  end.

(** The number of digits of a text. *)
Definition digits (w : str) : nat := length (filter isdigit w).

(** The last [n] digits of a text, read off its end. *)
Definition last_digits (n : nat) (w : str) : str :=
  rev (firstn n (rev (filter isdigit w))).

(** [x] occurs in [s]. *)
Definition occurs (x s : str) : Prop := exists l r, s = l ++ x ++ r.

(** A text without structure: blanks and commas only. *)
Definition blank (s : str) : Prop :=
  Forall (fun c => isspace c = true \/ c = ","%char) s.

(** The text of the counterexample to the removal of every match: a phone
    number with spaces, cut in two by a second copy of itself. *)
Definition glued_phone_text : str := py "512512 555 0199555 0199".

(** A float that is a number ([x == x] in Python). *)
Definition is_number (x : float) : Prop := x <> S754_nan.

(** A float that is [+0.0], positive or [+inf]. *)
Definition fnonneg (x : float) : Prop :=
  match x with
  | S754_zero false | S754_finite false _ _ | S754_infinity false => True
  | _ => False
  end.

(** The place of a number in the order of the floats: its class (negative
    infinity, negative, zero, positive, positive infinity), then exponent
    and mantissa, both negated for a negative number. *)
Definition rank (x : float) : Z * Z * Z :=
  match x with
  | S754_zero _ => (0, 0, 0)
  | S754_nan => (0, 0, 0)
  | S754_infinity false => (2, 0, 0)
  | S754_infinity true => (-2, 0, 0)
  | S754_finite false m e => (1, e, Zpos m)
  | S754_finite true m e => (-1, - e, Zneg m)
  end%Z.

Definition lex_compare (a b : Z * Z * Z) : comparison :=
  let '(a1, a2, a3) := a in
  let '(b1, b2, b3) := b in
  match (a1 ?= b1)%Z with
  | Eq => match (a2 ?= b2)%Z with
          | Eq => (a3 ?= b3)%Z
          | c => c
          end
  | c => c
  end.

Definition lex_lt (a b : Z * Z * Z) : Prop :=
  let '(a1, a2, a3) := a in
  let '(b1, b2, b3) := b in
  (a1 < b1 \/ (a1 = b1 /\ (a2 < b2 \/ (a2 = b2 /\ a3 < b3))))%Z.

(** The weights of the scorer. *)
Definition weights : list float := [f0_15; f0_10; f0_20].

(** A running score: a sum of weights, added in order to [0.0]. *)
Definition sum_of_weights (x : float) : Prop :=
  exists ws, Forall (fun w => In w weights) ws /\ x = fold_left fadd ws f0_0.

(** [a] stands before [b] by score: the score does not rise. *)
Definition score_desc (a b : ResultItem) : Prop :=
  fleb (score b) (score a) = true.

(** [a] stands before [b] with an equal score: the site does not fall,
    respectively does not rise. *)
Definition tie_site_asc (a b : ResultItem) : Prop :=
  feqb (score a) (score b) = true -> str_ltb (site b) (site a) = false.

Definition tie_site_desc (a b : ResultItem) : Prop :=
  feqb (score a) (score b) = true -> str_ltb (site a) (site b) = false.

(** The last item with an address in a list of rows. *)
Definition last_with_url (u : str) (rows : list ResultItem)
    : option ResultItem :=
  find (fun x => str_eqb (url x) u) (rev rows).

(** [d.get(k)] *)
Definition lookup {V} (k : str) (d : list (str * V)) : option V :=
  option_map snd (find (fun kv => str_eqb k (fst kv)) d).

(** Two items of equal score at two sites, in the order of the sites. *)
Definition tied_rows : list (list ResultItem) :=
  [[{| site := py "a"; title := py "John Smith"; url := py "https://a.example/1";
       score := f0_4; matched_fields := [] |}];
   [{| site := py "b"; title := py "John Smith"; url := py "https://b.example/1";
       score := f0_4; matched_fields := [] |}]].

(** What the extraction keeps of a link: a score at the threshold or above,
    a number, and a title of bounded length. *)
Definition kept_item (it : ResultItem) : Prop :=
  fleb f0_4 (score it) = true /\ fnonneg (score it)
  /\ length (title it) <= 120.

(** A dictionary of rows by address: no key twice, every row under its own
    address. *)
Definition rows_by_url (d : list (str * ResultItem)) : Prop :=
  NoDup (map fst d) /\ Forall (fun kv => url (snd kv) = fst kv) d.

(** [<] on the keys [(score, site)] of two numbers, by ranks. *)
Definition key_lt (a b : float * str) : Prop :=
  lex_lt (rank (fst a)) (rank (fst b))
  \/ (rank (fst a) = rank (fst b) /\ str_ltb (snd a) (snd b) = true).

(** The key of a row in the final order. *)
Definition row_key (x : ResultItem) : float * str := (score x, site x).

(** A page for trying the extraction: [netloc] of an [https] address is the
    text between the scheme and the first slash, and the page holds a
    fragment link, a matching link, a link to another domain, a link without
    match, a link under the threshold and a repeated link. *)
Definition demo_netloc (u : str) : result str :=
  if startswith (py "https://") u
  then Ok (hd [] (split_on "/" (skipn 8 u)))
  else Ok [].

Definition demo_fetch (u : str) : result (list anchor) :=
  Ok [ {| href := py "#top"; get_text := py "Top" |};
       {| href := py "/p/john-smith-austin-tx";
          get_text := py "  John Smith, Austin TX " |};
       {| href := py "https://ads.example.net/john-smith-austin-tx";
          get_text := py "John Smith Austin TX" |};
       {| href := py "/about"; get_text := py "About" |};
       {| href := py "https://www.people.example.com/p/john-smith";
          get_text := py "John Smith" |};
       {| href := py "/p/john-smith-austin-tx";
          get_text := py "John Smith again" |} ].

Definition demo_query : QueryParts :=
  {| name := py "John Smith"; city := Some (py "Austin");
     state := Some (py "TX"); emails := []; phones := [];
     raw := py "John Smith, Austin TX" |}.

(** A token of [str.split()]: not empty, no blank inside. *)
Definition token (t : str) : Prop :=
  t <> [] /\ Forall (fun c => isspace c = false) t.

(** A running score with its matched fragments: one weight for each
    fragment. *)
Definition sum_with_count (acc : float * list str) : Prop :=
  exists ws,
    Forall (fun w => In w weights) ws
    /\ fst acc = fold_left fadd ws f0_0
    /\ length ws = length (snd acc).

(** The item that the extraction makes of an anchor of the page of a
    domain. *)
Definition from_anchor (netloc : str -> result str) (site0 domain : str)
    (q : QueryParts) (a : anchor) (it : ResultItem) : Prop :=
  startswith (py "#") (href a) = false
  /\ exists pn host,
       netloc (href a) = Ok pn
       /\ index (split_on ":" (if truthy pn then pn else domain)) 0 = Ok host
       /\ slice_from (-2) (split_on "." domain)
          = slice_from (-2) (split_on "." host)
       /\ url it = (if truthy pn then href a
                    else py "https://" ++ domain ++ href a)
       /\ site it = site0
       /\ title it = slice_to 120 (strip (get_text a))
       /\ (score it, matched_fields it)
          = score_link_text (strip (get_text a)) (url it) q.

(** A page with a malformed address among its links, and a [netloc] that
    raises on it. *)
Definition demo_netloc_strict (u : str) : result str :=
  if startswith (py "http://[") u then Raise ValueError else demo_netloc u.

Definition demo_fetch_malformed (u : str) : result (list anchor) :=
  Ok [ {| href := py "/p/john-smith-austin-tx";
          get_text := py "John Smith, Austin TX" |};
       {| href := py "http://[broken"; get_text := py "Broken" |} ].

(* ================================================================== *)
(** * Site groups and the selection of sites *)

From Stdlib Require DecimalString DecimalNat.

Definition SITE_GROUPS : list (str * list str) :=
  [ (py "peoplecore",
     map py ["whitepages"; "spokeo"; "beenverified"; "intelius"; "truthfinder";
             "fastpeoplesearch"; "truepeoplesearch"; "radaris"; "nuwber"]%string);
    (py "google",
     map py ["google_site_whitepages"; "google_site_spokeo"]%string);
    (py "startpage",
     map py ["startpage_site_whitepages"; "startpage_site_spokeo"]%string);
    (py "brokers_plus",
     map py ["peoplecore";
             "freebackgroundcheck"; "infotracer"; "recordsfinder";
             "affordablebackground";
             "govarrestssearch"; "idstrong"; "reversephonecheck";
             "searchquarry";
             "texaswarrants"; "usrecords"; "uswarrants"]%string);
    (py "more_people",
     map py ["peoplefinders"; "ussearch"; "peoplelooker"; "addresses";
             "neighborwho";
             "peekyou"; "thatsthem"; "cocofinder"; "clustrmaps"]%string) ].

(** The inner loop of [flatten_sites_arg]: a member of a group that is a
    group itself gives its members, any other member gives itself. *)
Definition expand_item (item : str) : list str :=
  match lookup item SITE_GROUPS with
  | Some members => members
  | None => [item]
  end.

(** The outer loop: [s in SITE_GROUPS] and [SITE_GROUPS[s]] are one
    lookup. *)
Definition expand_site (s : str) : list str :=
  match lookup s SITE_GROUPS with
  | Some items => flat_map expand_item items
  | None => [s]
  end.

Definition flatten_sites_arg (arg : str) : list str :=
  if str_eqb arg (py "all") then [py "all"]
  else
    let raw :=
      map (fun s => lower (strip s))
          (filter (fun s => truthy (strip s)) (split_on "," arg)) in
    flat_map expand_site raw.

(* ================================================================== *)
(** * The search addresses *)

(** The characters that [urllib.parse.quote] never encodes. *)
Definition always_safe (c : ascii) : bool :=
  isalpha_char c || isdigit c
  || Ascii.eqb c "_" || Ascii.eqb c "." || Ascii.eqb c "-" || Ascii.eqb c "~".

Definition hex_digit (n : nat) : ascii :=
  nth n (py "0123456789ABCDEF") "0"%char.

(** ['%{:02X}'.format(b)] *)
Definition percent (b : nat) : str :=
  ["%"%char; hex_digit (b / 16); hex_digit (b mod 16)].

(** The UTF-8 bytes of a character below U+0100. *)
Definition utf8 (c : ascii) : list nat :=
  if code c <? 128 then [code c]
  else [192 + code c / 64; 128 + code c mod 64].

(** [urllib.parse.quote_plus(s)]: safe characters stay, a space becomes a
    plus sign, every other byte is written in hexadecimal. *)
Definition quote_plus (s : str) : str :=
  flat_map (fun c =>
              if always_safe c then [c]
              else if Ascii.eqb c " " then ["+"%char]
              else flat_map percent (utf8 c))
           s.

(** [enc] of [site_patterns]: [ul.quote_plus(s or '')]. *)
Definition enc (s : str) : str := quote_plus s.

(** [x or ''] for an optional string. *)
Definition or_empty (x : option str) : str :=
  match x with
  | Some s => s
  | None => []
  end.

(** [str(i)] for a natural number. *)
Definition str_of_nat (i : nat) : str :=
  list_ascii_of_string
    (DecimalString.NilEmpty.string_of_uint (Nat.to_uint i)).

(** [enumerate(l, start)] *)
Fixpoint enumerate {A} (start : nat) (l : list A) : list (nat * A) :=
  match l with
  | [] => []
  | x :: l' => (start, x) :: enumerate (S start) l'
  end.

(** The dictionary literal of [site_patterns]. *)
Definition static_patterns (q : QueryParts) (first last city0 state0 : str)
    : list (str * str) :=
  [
    (py "whitepages",
     py "https://www.whitepages.com/name/"
     ++ enc (name q)
     ++ py "/"
     ++ enc state0
     ++ py "/"
     ++ enc city0);
    (py "spokeo",
     py "https://www.spokeo.com/"
     ++ enc first
     ++ py "-"
     ++ enc last
     ++ py "/"
     ++ enc state0
     ++ py "/"
     ++ enc city0);
    (py "beenverified",
     py "https://www.beenverified.com/people/"
     ++ enc first
     ++ py "-"
     ++ enc last
     ++ py "/"
     ++ enc (lower state0));
    (py "intelius",
     py "https://www.intelius.com/people-search/"
     ++ enc first
     ++ py "-"
     ++ enc last
     ++ py "/"
     ++ enc state0);
    (py "truthfinder",
     py "https://www.truthfinder.com/people/"
     ++ enc first
     ++ py "-"
     ++ enc last
     ++ py "/"
     ++ enc state0
     ++ py "/");
    (py "fastpeoplesearch",
     py "https://www.fastpeoplesearch.com/name/"
     ++ enc first
     ++ py "-"
     ++ enc last
     ++ py "_"
     ++ enc city0
     ++ py "-"
     ++ enc state0);
    (py "truepeoplesearch",
     py "https://www.truepeoplesearch.com/results?name="
     ++ enc (name q)
     ++ py "&citystatezip="
     ++ enc (strip (city0 ++ py " " ++ state0)));
    (py "radaris",
     py "https://radaris.com/ng/results?ff="
     ++ enc first
     ++ py "&fl="
     ++ enc last
     ++ py "&fc="
     ++ enc city0
     ++ py "&fs="
     ++ enc state0);
    (py "nuwber",
     py "https://nuwber.com/search?name="
     ++ enc (name q)
     ++ py "&location="
     ++ enc (strip (city0 ++ py " " ++ state0)));
    (py "google_site_whitepages",
     py "https://www.google.com/search?q=site:whitepages.com+"
     ++ enc (name q)
     ++ py "+"
     ++ enc city0
     ++ py "+"
     ++ enc state0);
    (py "google_site_spokeo",
     py "https://www.google.com/search?q=site:spokeo.com+"
     ++ enc (name q)
     ++ py "+"
     ++ enc city0
     ++ py "+"
     ++ enc state0);
    (py "startpage_site_whitepages",
     py "https://www.startpage.com/do/search?q=site%3Awhitepages.com+"
     ++ enc (name q)
     ++ py "+"
     ++ enc city0
     ++ py "+"
     ++ enc state0);
    (py "startpage_site_spokeo",
     py "https://www.startpage.com/do/search?q=site%3Aspokeo.com+"
     ++ enc (name q)
     ++ py "+"
     ++ enc city0
     ++ py "+"
     ++ enc state0);
    (py "freebackgroundcheck",
     py "https://freebackgroundcheck.org/name-search/?q="
     ++ enc (name q)
     ++ py "+"
     ++ enc city0
     ++ py "+"
     ++ enc state0);
    (py "infotracer",
     py "https://infotracer.com/search/?q="
     ++ enc (name q)
     ++ py "+"
     ++ enc city0
     ++ py "+"
     ++ enc state0);
    (py "recordsfinder",
     py "https://recordsfinder.com/people/?name="
     ++ enc (name q)
     ++ py "&location="
     ++ enc (strip (city0 ++ py " " ++ state0)));
    (py "affordablebackground",
     py "https://affordablebackgroundchecks.com/search/?q="
     ++ enc (name q)
     ++ py "+"
     ++ enc city0
     ++ py "+"
     ++ enc state0);
    (py "govarrestssearch",
     py "https://govarrestssearch.org/search/?q="
     ++ enc (name q)
     ++ py "+"
     ++ enc city0
     ++ py "+"
     ++ enc state0);
    (py "idstrong",
     py "https://www.idstrong.com/people-search/?q="
     ++ enc (name q)
     ++ py "+"
     ++ enc city0
     ++ py "+"
     ++ enc state0);
    (py "reversephonecheck",
     py "https://www.reversephonecheck.com/results.php?reporttype=1&fn="
     ++ enc first
     ++ py "&ln="
     ++ enc last
     ++ py "&city="
     ++ enc city0
     ++ py "&state="
     ++ enc state0);
    (py "searchquarry",
     py "https://www.searchquarry.com/names/?fn="
     ++ enc first
     ++ py "&ln="
     ++ enc last
     ++ py "&state="
     ++ enc state0);
    (py "texaswarrants",
     py "https://texaswarrants.org/search/?q="
     ++ enc (name q)
     ++ py "+"
     ++ enc city0
     ++ py "+"
     ++ enc state0);
    (py "usrecords",
     py "https://usrecords.net/search/?q="
     ++ enc (name q)
     ++ py "+"
     ++ enc city0
     ++ py "+"
     ++ enc state0);
    (py "uswarrants",
     py "https://uswarrants.org/search/?q="
     ++ enc (name q)
     ++ py "+"
     ++ enc city0
     ++ py "+"
     ++ enc state0);
    (py "peoplefinders",
     py "https://www.peoplefinders.com/people/"
     ++ enc first
     ++ py "-"
     ++ enc last
     ++ py "?citystatezip="
     ++ quote_plus (strip (city0 ++ py " " ++ state0)));
    (py "ussearch",
     py "https://www.ussearch.com/people-search/"
     ++ enc first
     ++ py "-"
     ++ enc last
     ++ py "/"
     ++ enc state0);
    (py "peoplelooker",
     py "https://www.peoplelooker.com/people/"
     ++ enc first
     ++ py "-"
     ++ enc last
     ++ py "/"
     ++ enc state0
     ++ py "/");
    (py "addresses",
     py "https://www.addresses.com/people/"
     ++ enc first
     ++ py "+"
     ++ enc last
     ++ py "?state="
     ++ enc state0
     ++ py "&city="
     ++ enc city0);
    (py "neighborwho",
     py "https://www.neighborwho.com/people-search/"
     ++ enc first
     ++ py "-"
     ++ enc last
     ++ py "/"
     ++ enc state0
     ++ py "/?city="
     ++ enc city0);
    (py "peekyou",
     py "https://www.peekyou.com/"
     ++ enc first
     ++ py "_"
     ++ enc last);
    (py "thatsthem",
     py "https://thatsthem.com/name/"
     ++ enc first
     ++ py "-"
     ++ enc last
     ++ py "?state="
     ++ enc state0
     ++ py "&city="
     ++ enc city0);
    (py "cocofinder",
     py "https://cocofinder.com/name?q="
     ++ enc (name q)
     ++ py "+"
     ++ enc city0
     ++ py "+"
     ++ enc state0);
    (py "clustrmaps",
     py "https://clustrmaps.com/person/"
     ++ enc first
     ++ py "-"
     ++ enc last
     ++ py "/"
     ++ enc state0)
  ].

Definition site_patterns (q : QueryParts) : result (list (str * str)) :=
  fl <-
    (if truthy (name q) then
       let tokens := split (name q) in
       if 2 <=? length tokens then
         first <- index tokens 0 ;;
         last <- index tokens (-1) ;;
         Ok (first, last)
       else
         first <- index tokens 0 ;;
         Ok (first, [])
     else Ok ([], [])) ;;
  let '(first, last) := fl in
  let city0 := or_empty (city q) in
  let state0 := or_empty (state q) in
  let patterns := static_patterns q first last city0 state0 in
  let patterns :=
    if truthy (phones q) then
      fold_left (fun d ip =>
                   dict_set (py "google_phone_" ++ str_of_nat (fst ip))
                            (py "https://www.google.com/search?q="
                             ++ enc (snd ip)) d)
                (enumerate 1 (phones q)) patterns
    else patterns in
  let patterns :=
    if truthy (emails q) then
      fold_left (fun d ie =>
                   dict_set (py "google_email_" ++ str_of_nat (fst ie))
                            (py "https://www.google.com/search?q=%22"
                             ++ enc (snd ie) ++ py "%22") d)
                (enumerate 1 (emails q)) patterns
    else patterns in
  Ok patterns.

(* ================================================================== *)
(** * The selection and the listing of [main] *)

(** [d.keys()] *)
Definition keys {V} (d : list (str * V)) : list str := map fst d.

(** [l.insert(i, x)] for an index that is not negative. *)
Definition insert_at {A} (i : nat) (x : A) (l : list A) : list A :=
  firstn i l ++ x :: skipn i l.

(** [args.sites] after the coercion of [--safe-discovery]. *)
Definition safe_discovery_sites (sites : str) : str :=
  if str_eqb sites (py "all") then py "google,startpage"
  else
    let wanted_groups := parts_of sites in
    let wanted_groups :=
      if negb (mem (py "google") wanted_groups)
      then insert_at 0 (py "google") wanted_groups else wanted_groups in
    let wanted_groups :=
      if negb (mem (py "startpage") wanted_groups)
      then insert_at 1 (py "startpage") wanted_groups else wanted_groups in
    join (py ",") wanted_groups.

(** [wanted_list] of [main]. *)
Definition wanted_list (patterns : list (str * str)) (sites : str)
    : list str :=
  if str_eqb sites (py "all") then keys patterns
  else
    let wanted_list := flatten_sites_arg sites in
    if mem (py "all") wanted_list then keys patterns else wanted_list.

(** [filtered] of [main]: [{k: v for k, v in patterns.items() if k in
    wanted}]. *)
Definition filtered (patterns : list (str * str)) (sites : str)
    : list (str * str) :=
  let wanted := wanted_list patterns sites in
  filter (fun kv => mem (fst kv) wanted) patterns.

(** [site.startswith("google_") or site.startswith("startpage_")] *)
Definition is_discovery (s : str) : bool :=
  startswith (py "google_") s || startswith (py "startpage_") s.

(** What the listing of the search addresses does: a line printed, a call
    of [webbrowser.open_new_tab] that returns, or one that raises. *)
Inductive event : Type :=
| Printed (s link : str)
| Opened (link : str)
| OpenFailed (link : str).

(** The loop under ["Search URLs:"].  [try_open n link] tells whether the
    call number [n] of [webbrowser.open_new_tab], on [link], returns. *)
Fixpoint search_urls (safe_discovery open no_open_non_google : bool)
    (limit_open : Z) (try_open : nat -> str -> bool)
    (count_opened : Z) (calls : nat) (items : list (str * str))
    : list event :=
  match items with
  | [] => []
  | (s, link) :: items' =>
      if safe_discovery && negb (is_discovery s) then
        search_urls safe_discovery open no_open_non_google limit_open
                    try_open count_opened calls items'
      else
        Printed s link ::
        (if open && (count_opened <? limit_open)%Z then
           if no_open_non_google && negb (is_discovery s) then
             search_urls safe_discovery open no_open_non_google limit_open
                         try_open count_opened calls items'
           else if try_open calls link then
             Opened link ::
             search_urls safe_discovery open no_open_non_google limit_open
                         try_open (count_opened + 1)%Z (S calls) items'
           else
             OpenFailed link ::
             search_urls safe_discovery open no_open_non_google limit_open
                         try_open count_opened (S calls) items'
         else
           search_urls safe_discovery open no_open_non_google limit_open
                       try_open count_opened calls items')
  end.

Definition opened_links (t : list event) : list str :=
  flat_map (fun e => match e with Opened l => [l] | _ => [] end) t.

Definition printed_lines (t : list event) : list (str * str) :=
  flat_map (fun e => match e with Printed s l => [(s, l)] | _ => [] end) t.

(* ================================================================== *)
(** * The opt-out links *)

Definition OPT_OUT_LINKS : list (str * str) :=
  [
    (py "whitepages",
     py "https://www.whitepages.com/suppression_requests");
    (py "spokeo",
     py "https://www.spokeo.com/opt_out/new");
    (py "beenverified",
     py "https://www.beenverified.com/app/optout/search");
    (py "intelius",
     py "https://suppression.peopleconnect.us/login");
    (py "truthfinder",
     py "https://www.truthfinder.com/opt-out/");
    (py "fastpeoplesearch",
     py "https://www.fastpeoplesearch.com/removal");
    (py "truepeoplesearch",
     py "https://www.truepeoplesearch.com/removal");
    (py "radaris",
     py "https://radaris.com/control/privacy");
    (py "nuwber",
     py "https://nuwber.com/removal");
    (py "mylife",
     py "https://www.mylife.com/privacy-policy");
    (py "freebackgroundcheck",
     py "https://freebackgroundcheck.org/opt-out/");
    (py "infotracer",
     py "https://infotracer.com/optout/");
    (py "recordsfinder",
     py "https://recordsfinder.com/opt-out/");
    (py "affordablebackground",
     py "https://affordablebackgroundchecks.com/remove/");
    (py "govarrestssearch",
     py "https://govarrestssearch.org/optout/");
    (py "idstrong",
     py "https://www.idstrong.com/opt-out/");
    (py "reversephonecheck",
     py "https://www.reversephonecheck.com/optout.php");
    (py "searchquarry",
     py "https://www.searchquarry.com/opt-out-of-search-quarry/");
    (py "texaswarrants",
     py "https://texaswarrants.org/remove/");
    (py "usrecords",
     py "https://usrecords.net/remove/");
    (py "uswarrants",
     py "https://uswarrants.org/remove/");
    (py "peoplefinders",
     py "https://www.peoplefinders.com/opt-out");
    (py "ussearch",
     py "https://suppression.peopleconnect.us/login");
    (py "peoplelooker",
     py "https://www.peoplelooker.com/opt-out/");
    (py "addresses",
     py "https://www.addresses.com/optout");
    (py "neighborwho",
     py "https://www.neighborwho.com/do-not-sell-my-information/");
    (py "peekyou",
     py "https://www.peekyou.com/about/contact/optout/");
    (py "thatsthem",
     py "https://thatsthem.com/optout");
    (py "cocofinder",
     py "https://cocofinder.com/remove-my-info");
    (py "clustrmaps",
     py "https://clustrmaps.com/bl/opt-out") ].

(** The loop under ["Opt-out links:"], over [wanted_list]; [try_open n url]
    tells whether the call number [n] of [webbrowser.open_new_tab] returns. *)
Fixpoint optout_links (open_optout : bool) (limit_open : Z)
    (try_open : nat -> str -> bool) (opened : Z) (calls : nat)
    (wanted_list : list str) : list event :=
  match wanted_list with
  | [] => []
  | s :: wanted_list' =>
      match lookup s OPT_OUT_LINKS with
      | Some url =>
          Printed s url ::
          (if open_optout && (opened <? limit_open)%Z then
             if try_open calls url then
               Opened url ::
               optout_links open_optout limit_open try_open
                            (opened + 1)%Z (S calls) wanted_list'
             else
               OpenFailed url ::
               optout_links open_optout limit_open try_open
                            opened (S calls) wanted_list'
           else
             optout_links open_optout limit_open try_open
                          opened calls wanted_list')
      | None =>
          optout_links open_optout limit_open try_open
                       opened calls wanted_list'
      end
  end.

(** The rows that [main] collects and puts in the final order: with
    [--scrape], some site selected and both optional imports, the
    extractions of the selected sites, one behind the other. *)
Definition main_rows (scrape httpx_present BeautifulSoup_present : bool)
    (fetch : str -> result (list anchor)) (netloc : str -> result str)
    (q : QueryParts) (items : list (str * str)) : list ResultItem :=
  let per_site :=
    if scrape && truthy items then
      if negb httpx_present || negb BeautifulSoup_present then []
      else
        map (fun su => best_effort_scrape httpx_present BeautifulSoup_present
                         fetch netloc (fst su) (snd su) q)
            items
    else [] in
  aggregate per_site.

(** The keys of the dictionary literal of [site_patterns], in order. *)
Definition static_keys : list str :=
  map py
    ["whitepages"; "spokeo"; "beenverified"; "intelius"; "truthfinder";
     "fastpeoplesearch"; "truepeoplesearch"; "radaris"; "nuwber";
     "google_site_whitepages"; "google_site_spokeo";
     "startpage_site_whitepages"; "startpage_site_spokeo";
     "freebackgroundcheck"; "infotracer"; "recordsfinder";
     "affordablebackground"; "govarrestssearch"; "idstrong";
     "reversephonecheck"; "searchquarry"; "texaswarrants"; "usrecords";
     "uswarrants";
     "peoplefinders"; "ussearch"; "peoplelooker"; "addresses"; "neighborwho";
     "peekyou"; "thatsthem"; "cocofinder"; "clustrmaps"]%string.

(** No string of a list occurs twice. *)
Fixpoint distinct (l : list str) : bool :=
  match l with
  | [] => true
  | x :: l' => negb (mem x l') && distinct l'
  end.

(** The characters of the search addresses: the safe characters of
    [quote], the plus and percent signs of an encoded text, and the
    punctuation of the templates. *)
Definition url_char (c : ascii) : bool :=
  always_safe c
  || Ascii.eqb c "+" || Ascii.eqb c "%" || Ascii.eqb c ":" || Ascii.eqb c "/"
  || Ascii.eqb c "?" || Ascii.eqb c "=" || Ascii.eqb c "&".

(** The record of the sample page with two phones and an email. *)
Definition demo_contact : QueryParts :=
  {| name := py "John Smith"; city := Some (py "Austin");
     state := Some (py "TX"); emails := [py "jsmith@example.com"];
     phones := [py "5125550199"; py "5125550100"];
     raw := py "John Smith, Austin TX" |}.

(** The sites of the groups [google] and [startpage]. *)
Definition discovery_keys : list str :=
  map py ["google_site_whitepages"; "google_site_spokeo";
          "startpage_site_whitepages"; "startpage_site_spokeo"]%string.

(* ================================================================== *)
(** * Lists and strings *)

Lemma truthy_true {A} (l : list A) : truthy l = true <-> l <> [].
Proof. destruct l; simpl; split; congruence. Qed.

Lemma truthy_false {A} (l : list A) : truthy l = false <-> l = [].
Proof. destruct l; simpl; split; congruence. Qed.

Lemma index_0_ok {A} (l : list A) :
  truthy l = true -> exists a, index l 0 = Ok a /\ In a l.
Proof.
  destruct l as [|a l]; simpl; [discriminate|]. intros _.
  exists a. split; [|now left].
  unfold index. simpl length.
  replace ((0 <=? 0)%Z && (0 <? Z.of_nat (S (length l)))%Z) with true.
  - reflexivity.
  - symmetry. apply andb_true_iff. split; [reflexivity|]. apply Z.ltb_lt. lia.
Qed.

Lemma index_last_ok {A} (l : list A) :
  truthy l = true -> exists a, index l (-1) = Ok a /\ In a l.
Proof.
  intros H. apply truthy_true in H.
  destruct (exists_last H) as [l' [a ->]].
  exists a. split; [|apply in_or_app; right; now left].
  unfold index. rewrite length_app. simpl length.
  replace ((-1 <? 0)%Z) with true by reflexivity.
  replace (Z.of_nat (length l' + 1) + -1)%Z with (Z.of_nat (length l')) by lia.
  replace ((0 <=? Z.of_nat (length l'))%Z
           && (Z.of_nat (length l') <? Z.of_nat (length l' + 1))%Z) with true.
  - rewrite Nat2Z.id, nth_error_app2 by lia.
    rewrite Nat.sub_diag. reflexivity.
  - symmetry. apply andb_true_iff. split; [apply Z.leb_le|apply Z.ltb_lt]; lia.
Qed.

Lemma In_firstn {A} (n : nat) (l : list A) (x : A) :
  In x (firstn n l) -> In x l.
Proof.
  intros H. rewrite <- (firstn_skipn n l). apply in_or_app. now left.
Qed.

Lemma In_skipn {A} (n : nat) (l : list A) (x : A) :
  In x (skipn n l) -> In x l.
Proof.
  intros H. rewrite <- (firstn_skipn n l). apply in_or_app. now right.
Qed.

Lemma str_eqb_eq (a b : str) : str_eqb a b = true <-> a = b.
Proof.
  revert b. induction a as [|x a IH]; intros [|y b]; simpl; split;
    try congruence.
  - intros H. apply andb_true_iff in H. destruct H as [H1 H2].
    apply Ascii.eqb_eq in H1. apply IH in H2. congruence.
  - intros H. injection H as -> ->. apply andb_true_iff. split.
    + apply Ascii.eqb_refl.
    + now apply IH.
Qed.

Lemma str_eqb_refl (a : str) : str_eqb a a = true.
Proof. now apply str_eqb_eq. Qed.

Lemma str_eqb_neq (a b : str) : str_eqb a b = false <-> a <> b.
Proof.
  split.
  - intros H E. apply str_eqb_eq in E. congruence.
  - intros H. destruct (str_eqb a b) eqn:E; [|reflexivity].
    apply str_eqb_eq in E. contradiction.
Qed.

(* ================================================================== *)
(** * The matcher finds words of the pattern *)

Lemma plus_more_sound {A} (p : ascii -> bool) (k : str -> option A) :
  forall s x, plus_more p s k = Some x ->
  exists w rest, s = w ++ rest /\ Forall (fun c => p c = true) w
                 /\ k rest = Some x.
Proof.
  induction s as [|c s IH]; simpl; intros x H.
  - exists [], []. auto.
  - destruct (p c) eqn:Hc.
    + destruct (plus_more p s k) as [y|] eqn:Hm.
      * injection H as <-. destruct (IH _ eq_refl) as (w & rest & -> & Hw & Hk).
        exists (c :: w), rest. auto.
      * exists [], (c :: s). auto.
    + exists [], (c :: s). auto.
Qed.

Lemma rmatch_sound {A} (r : regex) :
  forall s (k : str -> option A) x, rmatch r s k = Some x ->
  exists w rest, s = w ++ rest /\ re_lang r w /\ k rest = Some x.
Proof.
  induction r as [|p|r1 IH1 r2 IH2|r1 IH1|p]; simpl; intros s k x H.
  - exists [], s. auto using L_eps.
  - destruct s as [|c s]; [discriminate|].
    destruct (p c) eqn:Hc; [|discriminate].
    exists [c], s. auto using L_cls.
  - apply IH1 in H. destruct H as (w1 & rest1 & -> & Hw1 & H).
    apply IH2 in H. destruct H as (w2 & rest2 & -> & Hw2 & H).
    exists (w1 ++ w2), rest2. rewrite app_assoc. auto using L_cat.
  - destruct (rmatch r1 s k) as [y|] eqn:Hm.
    + injection H as <-. apply IH1 in Hm.
      destruct Hm as (w & rest & -> & Hw & Hk).
      exists w, rest. auto using L_opt_take.
    + exists [], s. auto using L_opt_skip.
  - destruct s as [|c s]; [discriminate|].
    destruct (p c) eqn:Hc; [|discriminate].
    apply plus_more_sound in H. destruct H as (w & rest & -> & Hw & Hk).
    exists (c :: w), rest. split; [reflexivity|]. split; [|assumption].
    apply L_plus; [discriminate|auto].
Qed.

Lemma match_at_sound (r : regex) (s rest : str) :
  match_at r s = Some rest -> exists w, s = w ++ rest /\ re_lang r w.
Proof.
  unfold match_at. intros H. apply rmatch_sound in H.
  destruct H as (w & rest' & -> & Hw & Hk). injection Hk as ->. eauto.
Qed.

Lemma firstn_matched (w rest : str) :
  firstn (length (w ++ rest) - length rest) (w ++ rest) = w.
Proof.
  rewrite length_app, Nat.add_sub.
  replace (length w) with (length w + 0) by lia.
  rewrite firstn_app_2. simpl. apply app_nil_r.
Qed.

(** A match of [findall] is a word of the pattern placed in the text. *)
Lemma findall_from_sound (r : regex) :
  forall s skip m, In m (findall_from r skip s) ->
  re_lang r m /\ exists l rest, s = l ++ m ++ rest.
Proof.
  assert (Hcons : forall (c : ascii) s m,
             (exists l rest, s = l ++ m ++ rest) ->
             exists l rest, c :: s = l ++ m ++ rest).
  { intros c s m (l & rest & ->). exists (c :: l), rest. reflexivity. }
  induction s as [|c s IH]; intros skip m H.
  - destruct skip as [|n]; simpl in H; [|contradiction].
    destruct (match_at r []) as [rest|] eqn:Hm; [|contradiction].
    destruct H as [<-|[]]. apply match_at_sound in Hm.
    destruct Hm as (w & Hs & Hw).
    destruct w; [|discriminate]. simpl in Hs. subst rest. simpl.
    split; [assumption|]. exists [], []. reflexivity.
  - destruct skip as [|n]; cbn [findall_from] in H.
    + destruct (match_at r (c :: s)) as [rest|] eqn:Hm.
      * destruct H as [<-|H].
        -- apply match_at_sound in Hm. destruct Hm as (w & Hs & Hw).
           rewrite Hs. rewrite firstn_matched.
           split; [assumption|]. exists [], rest. reflexivity.
        -- apply IH in H. destruct H; auto.
      * apply IH in H. destruct H; auto.
    + apply IH in H. destruct H; auto.
Qed.

Lemma findall_sound (r : regex) (s m : str) :
  In m (findall r s) -> re_lang r m /\ occurs m s.
Proof. apply findall_from_sound. Qed.

Lemma re_lang_chars (P : ascii -> Prop) (r : regex) (w : str) :
  re_lang r w -> re_chars P r -> Forall P w.
Proof.
  induction 1; simpl; intros Hr.
  - constructor.
  - constructor; auto.
  - destruct Hr. apply Forall_app. auto.
  - constructor.
  - auto.
  - eapply Forall_impl; [|eassumption]. auto.
Qed.

Lemma digits_app (a b : str) : digits (a ++ b) = digits a + digits b.
Proof. unfold digits. now rewrite filter_app, length_app. Qed.

Lemma times_digit_lang (n : nat) (w : str) :
  re_lang (times n (Cls isdigit)) w -> digits w = n /\ length w = n.
Proof.
  revert w. induction n as [|n IH]; simpl; intros w H.
  - inversion H. auto.
  - inversion H as [| |r1 r2 w1 w2 H1 H2| | |]; subst.
    inversion H1 as [|p c Hc| | | |]; subst.
    apply IH in H2. destruct H2 as [H2 H3].
    unfold digits in *. simpl. rewrite Hc. simpl. lia.
Qed.

Lemma cls_digit_lang (w : str) : re_lang (Cls isdigit) w -> digits w = 1.
Proof.
  intros H. inversion H as [|p c Hc| | | |]; subst.
  unfold digits. simpl. now rewrite Hc.
Qed.

(** A match of [PHONE_RE] holds at least ten digits. *)
Lemma phone_lang_digits (w : str) : re_lang PHONE_RE w -> 10 <= digits w.
Proof.
  unfold PHONE_RE. intros H.
  repeat match goal with
         | H : re_lang (Cat _ _) _ |- _ => inversion H; subst; clear H
         end.
  repeat match goal with
         | H : re_lang (Cls isdigit) _ |- _ => apply cls_digit_lang in H
         end.
  rewrite !digits_app. lia.
Qed.

Lemma email_char_not_space (c : ascii) : email_char c = true -> c <> " "%char.
Proof. intros H ->. discriminate H. Qed.

Lemma isword_not_space (c : ascii) : isword c = true -> c <> " "%char.
Proof. intros H ->. discriminate H. Qed.

(** A match of [EMAIL_RE] is not empty and holds no space. *)
Lemma email_lang_shape (w : str) :
  re_lang EMAIL_RE w -> w <> [] /\ ~ In " "%char w.
Proof.
  intros H. split.
  - unfold EMAIL_RE in H.
    inversion H as [| |r1 r2 w1 w2 H1 H2| | |]; subst.
    inversion H1; subst. destruct w1; [congruence|discriminate].
  - assert (HF : Forall (fun c => c <> " "%char) w).
    { apply (re_lang_chars _ H). simpl.
      repeat split; intros c Hc;
        try (now apply email_char_not_space);
        try (now apply isword_not_space);
        intros ->; discriminate Hc. }
    rewrite Forall_forall in HF. intros Hin. now apply (HF _ Hin).
Qed.

(* ================================================================== *)
(** * The identity parser *)

Lemma or_None_nonempty (x : str) : or_None x <> Some [].
Proof. unfold or_None. destruct x; simpl; discriminate. Qed.

(** The scan for the region code never raises, and never reports an empty
    city. *)
Lemma scan_state_ok (segs : list str) :
  exists c s, scan_state segs = Ok (c, s) /\ c <> Some [].
Proof.
  induction segs as [|seg segs IH]; cbn [scan_state].
  - exists None, None. split; [reflexivity|discriminate].
  - destruct (truthy (split (replace seg (py ".") (py " ")))) eqn:Ht;
      [|exact IH].
    destruct (index_last_ok _ Ht) as (a & -> & _). cbn [bind].
    destruct (mem (upper a) STATE_ABBR); [|exact IH].
    eexists _, _. split; [reflexivity|apply or_None_nonempty].
Qed.

Lemma scan_state_nil : scan_state [] = Ok (None, None).
Proof. reflexivity. Qed.

(** The parser never raises; its record keeps the text, the matches of the
    two patterns, and no empty city. *)
Lemma smart_parse_total (q : str) :
  exists nm c s,
    smart_parse q =
      Ok {| name := nm; city := c; state := s;
            emails := findall EMAIL_RE q;
            phones := map (fun p => slice_from (-10) (sub_nondigit p))
                          (findall PHONE_RE q);
            raw := q |}
    /\ c <> Some []
    /\ (parts_of (residual q) = [] -> nm = [] /\ c = None /\ s = None).
Proof.
  unfold smart_parse.
  destruct (truthy (parts_of (residual q))) eqn:Hp.
  - set (cands := filter _ (parts_of (residual q))).
    assert (Hn : exists a,
               (if truthy cands then index cands 0
                else index (parts_of (residual q)) 0) = Ok a).
    { destruct (truthy cands) eqn:Hc.
      - destruct (index_0_ok _ Hc) as (a & Ha & _). eauto.
      - destruct (index_0_ok _ Hp) as (a & Ha & _). eauto. }
    destruct Hn as (a & ->).
    destruct (scan_state_ok (slice_from 1 (parts_of (residual q))))
      as (c & s & Hs & Hc).
    cbn [bind]. rewrite Hs. cbn [bind].
    eexists _, c, s. split; [reflexivity|]. split; [assumption|].
    intros E. rewrite E in Hp. discriminate.
  - cbn [bind]. eexists _, None, None. split; [reflexivity|].
    split; [discriminate|]. intros _. auto.
Qed.

(** ** Texts without structure *)

Lemma isspace_not_email_char (c : ascii) :
  isspace c = true \/ c = ","%char -> email_char c = false.
Proof.
  intros [H| ->]; [|reflexivity].
  destruct c as [[] [] [] [] [] [] [] []]; try discriminate H; reflexivity.
Qed.

Lemma isspace_not_digit (c : ascii) :
  isspace c = true \/ c = ","%char -> isdigit c = false.
Proof.
  intros [H| ->]; [|reflexivity].
  destruct c as [[] [] [] [] [] [] [] []]; try discriminate H; reflexivity.
Qed.

Lemma blank_occurs (m s : str) : occurs m s -> blank s -> blank m.
Proof.
  intros (l & r & ->) H. unfold blank in *.
  apply Forall_app in H. destruct H as [_ H].
  apply Forall_app in H. tauto.
Qed.

Lemma no_match_nil (r : regex) (s : str) :
  (forall m, re_lang r m -> occurs m s -> False) -> findall r s = [].
Proof.
  intros H. destruct (findall r s) as [|m l] eqn:E; [reflexivity|].
  exfalso. destruct (@findall_sound r s m) as [H1 H2].
  - rewrite E. now left.
  - eauto.
Qed.

Lemma blank_no_email (s : str) : blank s -> findall EMAIL_RE s = [].
Proof.
  intros Hs. apply no_match_nil. intros m Hm Ho.
  pose proof (blank_occurs Ho Hs) as Hb.
  unfold EMAIL_RE in Hm.
  inversion Hm as [| |r1 r2 w1 w2 H1 H2| | |]; subst.
  inversion H1 as [| | | | |p w Hne Hall]; subst.
  destruct w1 as [|c w1]; [congruence|].
  inversion Hall; subst. inversion Hb; subst.
  match goal with
  | H : isspace c = true \/ _ |- _ => apply isspace_not_email_char in H
  end.
  congruence.
Qed.

Lemma blank_digits (s : str) : blank s -> digits s = 0.
Proof.
  unfold digits. induction 1 as [|c s Hc _ IH]; simpl; [reflexivity|].
  now rewrite (isspace_not_digit Hc).
Qed.

Lemma blank_no_phone (s : str) : blank s -> findall PHONE_RE s = [].
Proof.
  intros Hs. apply no_match_nil. intros m Hm Ho.
  pose proof (blank_digits (blank_occurs Ho Hs)).
  pose proof (phone_lang_digits Hm). lia.
Qed.

Lemma blank_residual (s : str) : blank s -> residual s = s.
Proof.
  intros H. unfold residual.
  now rewrite (blank_no_email H), (blank_no_phone H).
Qed.

Lemma lstrip_spaces (s : str) :
  Forall (fun c => isspace c = true) s -> lstrip s = [].
Proof. induction 1 as [|c s Hc _ IH]; simpl; [reflexivity|now rewrite Hc]. Qed.

Lemma strip_spaces (s : str) :
  Forall (fun c => isspace c = true) s -> strip s = [].
Proof. intros H. unfold strip, rstrip. now rewrite (lstrip_spaces H). Qed.

Lemma split_on_comma_blank (s : str) :
  blank s ->
  Forall (fun seg => Forall (fun c => isspace c = true) seg) (split_on "," s).
Proof.
  induction 1 as [|c s Hc _ IH]; simpl.
  - repeat constructor.
  - destruct (Ascii.eqb c ",") eqn:E.
    + constructor; [constructor|assumption].
    + destruct Hc as [Hc| ->]; [|discriminate E].
      destruct (split_on "," s) as [|t r]; [repeat constructor; assumption|].
      inversion IH; subst. constructor; auto.
Qed.

Lemma blank_parts (s : str) : blank s -> parts_of s = [].
Proof.
  intros H. unfold parts_of.
  pose proof (split_on_comma_blank H) as HF.
  induction HF as [|seg l Hseg _ IH]; simpl; [reflexivity|].
  now rewrite (strip_spaces Hseg).
Qed.

(** ** The normal form of a telephone number *)

Lemma slice_from_neg {A} (n : nat) (l : list A) :
  0 < n -> slice_from (- Z.of_nat n) l = skipn (length l - n) l.
Proof.
  intros Hn. unfold slice_from.
  replace (- Z.of_nat n <? 0)%Z with true by (symmetry; apply Z.ltb_lt; lia).
  f_equal. lia.
Qed.

Lemma slice_from_last_digits (m : str) :
  slice_from (-10) (sub_nondigit m) = last_digits 10 m.
Proof.
  change (-10)%Z with (- Z.of_nat 10)%Z.
  rewrite slice_from_neg by lia.
  unfold last_digits, sub_nondigit.
  now rewrite firstn_rev, rev_involutive.
Qed.

Lemma last_digits_are_digits (n : nat) (m : str) :
  Forall (fun c => isdigit c = true) (last_digits n m).
Proof.
  unfold last_digits. apply Forall_forall. intros c Hc.
  apply in_rev in Hc. apply In_firstn in Hc.
  apply in_rev in Hc. apply filter_In in Hc. tauto.
Qed.

Lemma last_digits_length (n : nat) (m : str) :
  length (last_digits n m) = Nat.min n (digits m).
Proof.
  unfold last_digits, digits. now rewrite length_rev, length_firstn, length_rev.
Qed.

(** ** The claims on the parser *)

(** C1, as stated, fails: the parse of ["Jane A. Doe, Austin, TX"] has no
    city ["Austin"].  The comma puts ["Austin"] and ["TX"] in two segments,
    and the city is read from the tokens before the region code in the
    segment of the region code. *)
Lemma C1_city_Austin_refuted :
  ~ exists r,
      smart_parse (py "Jane A. Doe, Austin, TX") = Ok r
      /\ name r = py "Jane A. Doe" /\ city r = Some (py "Austin")
      /\ state r = Some (py "TX") /\ emails r = [] /\ phones r = [].
Proof.
  intros (r & H & _ & Hc & _). vm_compute in H. injection H as <-.
  discriminate Hc.
Qed.

(** C1, amended: parsing ["Jane A. Doe, Austin, TX"] yields the name
    ["Jane A. Doe"], no city, the state ["TX"], no email and no phone. *)
Theorem C1_parse_jane_doe :
  smart_parse (py "Jane A. Doe, Austin, TX") =
    Ok {| name := py "Jane A. Doe"; city := None; state := Some (py "TX");
          emails := []; phones := []; raw := py "Jane A. Doe, Austin, TX" |}.
Proof. vm_compute. reflexivity. Qed.

(** The city is found when it shares the segment of the region code. *)
Example parse_city_in_state_segment :
  smart_parse (py "Jane A. Doe, Austin TX") =
    Ok {| name := py "Jane A. Doe"; city := Some (py "Austin");
          state := Some (py "TX");
          emails := []; phones := []; raw := py "Jane A. Doe, Austin TX" |}.
Proof. vm_compute. reflexivity. Qed.

Example parse_email_and_phone :
  smart_parse (py "John Smith, jsmith@example.com, (512) 555-0199") =
    Ok {| name := py "John Smith"; city := None; state := None;
          emails := [py "jsmith@example.com"]; phones := [py "5125550199"];
          raw := py "John Smith, jsmith@example.com, (512) 555-0199" |}.
Proof. vm_compute. reflexivity. Qed.

(** C5: for every text the parser returns a record and does not raise; the
    record keeps the text in [raw]; on a text without structure (blanks and
    commas only, the empty text included) the name is empty, city and state
    are absent, and there are no emails and no phones. *)
Theorem C5_parse_never_raises :
  forall q, exists r,
    smart_parse q = Ok r /\ raw r = q
    /\ (blank q ->
        name r = [] /\ city r = None /\ state r = None
        /\ emails r = [] /\ phones r = []).
Proof.
  intros q. destruct (smart_parse_total q) as (nm & c & s & -> & _ & H).
  eexists. split; [reflexivity|]. split; [reflexivity|]. simpl.
  intros Hb. rewrite (blank_no_email Hb), (blank_no_phone Hb).
  destruct H as (-> & -> & ->).
  - rewrite (blank_residual Hb). now apply blank_parts.
  - auto.
Qed.

Lemma C5_parse_never_raises_witness :
  blank (py " , ")
  /\ exists r,
       smart_parse (py " , ") = Ok r /\ raw r = py " , "
       /\ name r = [] /\ city r = None /\ state r = None
       /\ emails r = [] /\ phones r = [].
Proof.
  assert (Hb : blank (py " , ")).
  { unfold blank. repeat constructor; (left; reflexivity) || (right; reflexivity). }
  split; [exact Hb|].
  destruct (C5_parse_never_raises (py " , ")) as (r & H1 & H2 & H3).
  exists r. split; [exact H1|]. split; [exact H2|]. exact (H3 Hb).
Defined.

(** C8: each entry of [phones] stands for one match of the phone pattern, in
    order, and is the last ten digits of the match with everything but the
    digits removed: digits only, ten characters at most. *)
Theorem C8_phone_normal_form :
  forall q, exists r,
    smart_parse q = Ok r
    /\ Forall2 (fun m p => p = last_digits 10 m
                           /\ Forall (fun c => isdigit c = true) p
                           /\ length p <= 10)
               (findall PHONE_RE q) (phones r).
Proof.
  intros q. destruct (smart_parse_total q) as (nm & c & s & -> & _).
  eexists. split; [reflexivity|]. simpl.
  induction (findall PHONE_RE q) as [|m l IH]; simpl; constructor; auto.
  rewrite slice_from_last_digits. split; [reflexivity|].
  split; [apply last_digits_are_digits|].
  rewrite last_digits_length. lia.
Qed.

(** C9: every entry of [phones] has exactly ten characters, as a match of the
    phone pattern holds at least ten digits. *)
Theorem C9_phone_length_ten :
  forall q, exists r,
    smart_parse q = Ok r /\ Forall (fun p => length p = 10) (phones r).
Proof.
  intros q. destruct (smart_parse_total q) as (nm & c & s & -> & _).
  eexists. split; [reflexivity|]. simpl.
  apply Forall_forall. intros p Hp. apply in_map_iff in Hp.
  destruct Hp as (m & <- & Hm). apply findall_sound in Hm.
  destruct Hm as [Hm _]. apply phone_lang_digits in Hm.
  rewrite slice_from_last_digits, last_digits_length. lia.
Qed.

(** C10: the city of the parsed record is absent or a non-empty text, never
    the empty text. *)
Theorem C10_city_never_empty :
  forall q, exists r,
    smart_parse q = Ok r
    /\ match city r with
       | None => True
       | Some c => c <> []
       end.
Proof.
  intros q. destruct (smart_parse_total q) as (nm & c & s & -> & Hc & _).
  eexists. split; [reflexivity|]. simpl.
  destruct c as [c|]; [|exact I]. intros ->. now apply Hc.
Qed.

(** The region code alone in its segment: the joined city is empty and is
    reported as absent. *)
Example parse_state_alone :
  smart_parse (py "Jane Doe, TX") =
    Ok {| name := py "Jane Doe"; city := None; state := Some (py "TX");
          emails := []; phones := []; raw := py "Jane Doe, TX" |}.
Proof. vm_compute. reflexivity. Qed.

(* ================================================================== *)
(** * Removal of the matches from the working text *)

Lemma startswith_prefix (p s : str) :
  startswith p s = true <-> exists r, s = p ++ r.
Proof.
  revert s. induction p as [|x p IH]; intros s; simpl.
  - split; eauto.
  - destruct s as [|y s].
    + split; [discriminate|]. intros (r & H). discriminate H.
    + rewrite andb_true_iff, Ascii.eqb_eq, IH. split.
      * intros (-> & r & ->). eauto.
      * intros (r & H). injection H as -> ->. eauto.
Qed.

Lemma replace_from_skip (old new : str) :
  forall s k, replace_from old new k s = replace_from old new 0 (skipn k s).
Proof.
  induction s as [|c s IH]; intros k.
  - now rewrite skipn_nil.
  - destruct k as [|k]; [reflexivity|]. simpl. apply IH.
Qed.

Lemma replace_nonempty (s old new : str) :
  old <> [] -> replace s old new = replace_from old new 0 s.
Proof. destruct old; [congruence|reflexivity]. Qed.

Lemma occurs_nil_inv (x : str) : occurs x [] -> x = [].
Proof.
  intros (l & r & H). symmetry in H. apply app_eq_nil in H.
  destruct H as [_ H]. apply app_eq_nil in H. tauto.
Qed.

Lemma occurs_cons (c : ascii) (x s : str) : occurs x s -> occurs x (c :: s).
Proof. intros (l & r & ->). exists (c :: l), r. reflexivity. Qed.

Lemma occurs_skipn (k : nat) (x s : str) : occurs x (skipn k s) -> occurs x s.
Proof.
  intros (l & r & H). exists (firstn k s ++ l), r.
  rewrite <- app_assoc, <- H. symmetry. apply firstn_skipn.
Qed.

Lemma occurs_cons_inv (c : ascii) (x s : str) :
  occurs x (c :: s) ->
  (exists x', x = c :: x' /\ startswith x' s = true) \/ x = [] \/ occurs x s.
Proof.
  intros (l & r & H). destruct l as [|d l]; simpl in H.
  - destruct x as [|d x]; [auto|].
    injection H as <- ->. left. exists x. split; [reflexivity|].
    apply startswith_prefix. eauto.
  - injection H as <- ->. right. right. exists l, r. reflexivity.
Qed.

Section Removal.

(** A match that is removed; a space takes its place. *)
Variable x : str.
Hypothesis x_nonempty : x <> [].
Hypothesis x_spaceless : ~ In " "%char x.

(** A text without space that starts the result of a replacement starts the
    text that the replacement was applied to. *)
Lemma startswith_replace_from (old : str) :
  forall s w, ~ In " "%char w ->
  startswith w (replace_from old (py " ") 0 s) = true -> startswith w s = true.
Proof.
  induction s as [|c s IH]; intros w Hw H; simpl in H.
  - exact H.
  - destruct w as [|d w]; [reflexivity|].
    destruct (startswith old (c :: s)).
    + simpl in H. apply andb_true_iff in H. destruct H as [H _].
      apply Ascii.eqb_eq in H. subst d. exfalso. apply Hw. now left.
    + simpl in H. apply andb_true_iff in H. destruct H as [H1 H2].
      simpl. rewrite H1. simpl. apply IH; [|assumption].
      intros Hin. apply Hw. now right.
Qed.

(** A replacement puts no occurrence of [x] into a text. *)
Lemma occurs_replace_from (old : str) :
  forall n s, length s <= n ->
  occurs x (replace_from old (py " ") 0 s) -> occurs x s.
Proof.
  induction n as [|n IH]; intros s Hn H.
  - destruct s; [|simpl in Hn; lia].
    apply occurs_nil_inv in H. contradiction.
  - destruct s as [|c s]; [apply occurs_nil_inv in H; contradiction|].
    simpl in Hn. cbn [replace_from] in H.
    destruct (startswith old (c :: s)) eqn:Hs.
    + rewrite replace_from_skip in H.
      apply occurs_cons_inv in H. destruct H as [(x' & -> & _)|[->|H]].
      * exfalso. apply x_spaceless. now left.
      * congruence.
      * apply occurs_cons. apply occurs_skipn with (k := length old - 1).
        apply IH; [|assumption]. rewrite length_skipn. lia.
    + apply occurs_cons_inv in H. destruct H as [(x' & -> & H)|[->|H]].
      * apply startswith_replace_from in H.
        -- apply startswith_prefix in H. destruct H as (r & ->).
           exists [], r. reflexivity.
        -- intros Hin. apply x_spaceless. now right.
      * congruence.
      * apply occurs_cons. apply IH; [lia|assumption].
Qed.

(** The replacement of [x] leaves no occurrence of [x]. *)
Lemma replace_from_removes :
  forall n s, length s <= n -> ~ occurs x (replace_from x (py " ") 0 s).
Proof.
  induction n as [|n IH]; intros s Hn H.
  - destruct s; [|simpl in Hn; lia].
    apply occurs_nil_inv in H. contradiction.
  - destruct s as [|c s]; [apply occurs_nil_inv in H; contradiction|].
    simpl in Hn. cbn [replace_from] in H.
    destruct (startswith x (c :: s)) eqn:Hs.
    + rewrite replace_from_skip in H.
      apply occurs_cons_inv in H. destruct H as [(x' & E & _)|[E|H]].
      * apply x_spaceless. rewrite E. now left.
      * congruence.
      * revert H. apply IH. rewrite length_skipn. lia.
    + apply occurs_cons_inv in H. destruct H as [(x' & E & H)|[E|H]].
      * apply startswith_replace_from in H.
        -- rewrite E in Hs. simpl in Hs. rewrite Ascii.eqb_refl, H in Hs.
           discriminate Hs.
        -- intros Hin. apply x_spaceless. rewrite E. now right.
      * congruence.
      * revert H. apply IH. lia.
Qed.

Lemma fold_replace_keeps_out (olds : list str) :
  Forall (fun o => o <> []) olds ->
  forall s, ~ occurs x s ->
  ~ occurs x (fold_left (fun work o => replace work o (py " ")) olds s).
Proof.
  induction 1 as [|o olds Ho _ IH]; intros s Hs; simpl; [assumption|].
  apply IH. rewrite (replace_nonempty _ _ Ho). intros H. apply Hs.
  now apply (@occurs_replace_from o (length s)).
Qed.

Lemma fold_replace_removes (olds : list str) :
  Forall (fun o => o <> []) olds -> In x olds ->
  forall s, ~ occurs x (fold_left (fun work o => replace work o (py " ")) olds s).
Proof.
  induction 1 as [|o olds Ho Holds IH]; intros Hin s; [contradiction|].
  simpl. destruct Hin as [->|Hin].
  - apply fold_replace_keeps_out; [assumption|].
    rewrite (replace_nonempty _ _ Ho).
    now apply (@replace_from_removes (length s)).
  - now apply IH.
Qed.

End Removal.

Lemma matches_nonempty (q : str) :
  Forall (fun o => o <> []) (findall EMAIL_RE q ++ findall PHONE_RE q).
Proof.
  apply Forall_forall. intros m Hm. apply in_app_or in Hm.
  destruct Hm as [Hm|Hm]; apply findall_sound in Hm; destruct Hm as [Hm _].
  - now apply email_lang_shape.
  - apply phone_lang_digits in Hm. intros ->. unfold digits in Hm.
    simpl in Hm. lia.
Qed.

Lemma residual_fold (q : str) :
  residual q =
    fold_left (fun work o => replace work o (py " "))
              (findall EMAIL_RE q ++ findall PHONE_RE q) q.
Proof. unfold residual. now rewrite fold_left_app. Qed.

(** Name, city and state are computed from the residual text alone. *)
Lemma fields_from_residual (q1 q2 : str) :
  residual q1 = residual q2 ->
  exists r1 r2,
    smart_parse q1 = Ok r1 /\ smart_parse q2 = Ok r2
    /\ name r1 = name r2 /\ city r1 = city r2 /\ state r1 = state r2.
Proof.
  intros E.
  destruct (smart_parse_total q1) as (n1 & c1 & s1 & H1 & _).
  destruct (smart_parse_total q2) as (n2 & c2 & s2 & H2 & _).
  eexists _, _. split; [exact H1|]. split; [exact H2|]. simpl.
  unfold smart_parse in H1, H2. rewrite E in H1.
  destruct (if truthy (parts_of (residual q2)) then _ else _)
    as [[n [c s]]|e]; simpl in H1, H2; [|discriminate].
  injection H1 as <- <- <-. injection H2 as <- <- <-. auto.
Qed.

(** ** The claim on the removal *)

(** C3, as stated, fails: the phone number ["512 555 0199"] is matched in
    ["512512 555 0199555 0199"], and its removal joins the two halves of a
    second copy, which stays in the residual text. *)
Lemma C3_glued_phone_remains :
  ~ (forall x,
       In x (findall EMAIL_RE glued_phone_text
             ++ findall PHONE_RE glued_phone_text) ->
       ~ occurs x (residual glued_phone_text)).
Proof.
  intros H. apply (H (py "512 555 0199")).
  - vm_compute. now left.
  - exists [], []. vm_compute. reflexivity.
Qed.

(** The name of that text is the phone number. *)
Example glued_phone_name :
  smart_parse glued_phone_text =
    Ok {| name := py "512 555 0199"; city := None; state := None;
          emails := []; phones := [py "5125550199"];
          raw := glued_phone_text |}.
Proof. vm_compute. reflexivity. Qed.

(** C3, amended: a matched email, and a matched phone number without a
    space, does not occur in the residual text, and name, city and state are
    computed from the residual text alone. *)
Theorem C3_matches_removed :
  forall q x,
    In x (findall EMAIL_RE q)
    \/ (In x (findall PHONE_RE q) /\ ~ In " "%char x) ->
    ~ occurs x (residual q)
    /\ (forall q', residual q' = residual q ->
        exists r r',
          smart_parse q = Ok r /\ smart_parse q' = Ok r'
          /\ name r' = name r /\ city r' = city r /\ state r' = state r).
Proof.
  intros q x Hx. split.
  - rewrite residual_fold.
    assert (Hm : In x (findall EMAIL_RE q ++ findall PHONE_RE q)
                 /\ ~ In " "%char x).
    { destruct Hx as [Hx|[Hx Hs]].
      - split; [apply in_or_app; now left|].
        apply findall_sound in Hx. destruct Hx as [Hx _].
        now apply email_lang_shape.
      - split; [apply in_or_app; now right|assumption]. }
    destruct Hm as [Hin Hs].
    pose proof (matches_nonempty q) as Hne.
    apply fold_replace_removes; try assumption.
    rewrite Forall_forall in Hne. now apply Hne.
  - intros q' E. destruct (fields_from_residual q' q E) as (r' & r & H).
    exists r, r'. tauto.
Qed.

Lemma C3_matches_removed_witness :
  (In (py "512-555-0199")
      (findall EMAIL_RE (py "John Smith, jsmith@example.com, 512-555-0199"))
   \/ (In (py "512-555-0199")
          (findall PHONE_RE (py "John Smith, jsmith@example.com, 512-555-0199"))
       /\ ~ In " "%char (py "512-555-0199")))
  /\ ~ occurs (py "512-555-0199")
        (residual (py "John Smith, jsmith@example.com, 512-555-0199")).
Proof.
  assert (H : In (py "512-555-0199")
                (findall EMAIL_RE
                   (py "John Smith, jsmith@example.com, 512-555-0199"))
              \/ (In (py "512-555-0199")
                     (findall PHONE_RE
                        (py "John Smith, jsmith@example.com, 512-555-0199"))
                  /\ ~ In " "%char (py "512-555-0199"))).
  { right. split.
    - vm_compute. now left.
    - vm_compute. intuition discriminate. }
  split; [exact H|]. exact (proj1 (C3_matches_removed _ _ H)).
Defined.

(* ================================================================== *)
(** * The order of the floats *)

Lemma lex_compare_lt (a b : Z * Z * Z) : lex_compare a b = Lt <-> lex_lt a b.
Proof.
  destruct a as [[a1 a2] a3], b as [[b1 b2] b3]. unfold lex_compare, lex_lt.
  destruct (Z.compare_spec a1 b1), (Z.compare_spec a2 b2),
    (Z.compare_spec a3 b3); split; intros Hc; try discriminate Hc;
    try reflexivity; try lia.
Qed.

Lemma lex_compare_eq (a b : Z * Z * Z) : lex_compare a b = Eq <-> a = b.
Proof.
  destruct a as [[a1 a2] a3], b as [[b1 b2] b3]. unfold lex_compare.
  destruct (Z.compare_spec a1 b1), (Z.compare_spec a2 b2),
    (Z.compare_spec a3 b3); split; intros Hc; try discriminate Hc;
    try reflexivity; try (injection Hc; lia); try (f_equal; [f_equal|]; lia).
Qed.

Lemma lex_compare_gt (a b : Z * Z * Z) : lex_compare a b = Gt <-> lex_lt b a.
Proof.
  destruct a as [[a1 a2] a3], b as [[b1 b2] b3]. unfold lex_compare, lex_lt.
  destruct (Z.compare_spec a1 b1), (Z.compare_spec a2 b2),
    (Z.compare_spec a3 b3); split; intros Hc; try discriminate Hc;
    try reflexivity; try lia.
Qed.

(** On numbers, [SFcompare] is the lexicographic comparison of ranks. *)
Lemma SFcompare_rank (x y : float) :
  is_number x -> is_number y ->
  SFcompare x y = Some (lex_compare (rank x) (rank y)).
Proof.
  unfold is_number.
  destruct x as [[]|[]| |[] mx ex], y as [[]|[]| |[] my ey];
    intros Hx Hy; try congruence; try reflexivity.
  unfold SFcompare, rank, lex_compare.
  change (-1 ?= -1)%Z with Eq. rewrite Z.compare_opp.
  rewrite (Z.compare_antisym ex ey).
  destruct (ex ?= ey)%Z; reflexivity.
Qed.

Lemma fltb_spec (x y : float) :
  is_number x -> is_number y ->
  (fltb x y = true <-> lex_lt (rank x) (rank y)).
Proof.
  intros Hx Hy. unfold fltb, SFltb. rewrite (SFcompare_rank Hx Hy).
  rewrite <- lex_compare_lt.
  destruct (lex_compare (rank x) (rank y)); split; congruence.
Qed.

Lemma fleb_spec (x y : float) :
  is_number x -> is_number y ->
  (fleb x y = true <-> ~ lex_lt (rank y) (rank x)).
Proof.
  intros Hx Hy. unfold fleb, SFleb. rewrite (SFcompare_rank Hx Hy).
  rewrite <- lex_compare_gt.
  destruct (lex_compare (rank x) (rank y)); split; congruence.
Qed.

Lemma feqb_spec (x y : float) :
  is_number x -> is_number y ->
  (feqb x y = true <-> rank x = rank y).
Proof.
  intros Hx Hy. unfold feqb, SFeqb. rewrite (SFcompare_rank Hx Hy).
  rewrite <- lex_compare_eq.
  destruct (lex_compare (rank x) (rank y)); split; congruence.
Qed.

Lemma lex_lt_trans (a b c : Z * Z * Z) : lex_lt a b -> lex_lt b c -> lex_lt a c.
Proof.
  destruct a as [[a1 a2] a3], b as [[b1 b2] b3], c as [[c1 c2] c3].
  unfold lex_lt. lia.
Qed.

Lemma lex_lt_irrefl (a : Z * Z * Z) : ~ lex_lt a a.
Proof. destruct a as [[a1 a2] a3]. unfold lex_lt. lia. Qed.

Lemma lex_lt_total (a b : Z * Z * Z) : lex_lt a b \/ a = b \/ lex_lt b a.
Proof.
  destruct a as [[a1 a2] a3], b as [[b1 b2] b3]. unfold lex_lt.
  destruct (Z.lt_trichotomy a1 b1) as [H1|[H1|H1]];
    destruct (Z.lt_trichotomy a2 b2) as [H2|[H2|H2]];
    destruct (Z.lt_trichotomy a3 b3) as [H3|[H3|H3]];
    try (left; lia); try (right; right; lia).
  right. left. congruence.
Qed.

(** [not (x < y)] is [y <= x] on numbers. *)
Lemma fltb_false_fleb (x y : float) :
  is_number x -> is_number y -> fltb x y = false -> fleb y x = true.
Proof.
  intros Hx Hy H. apply (fleb_spec Hy Hx). intros Hlt.
  apply (fltb_spec Hx Hy) in Hlt. congruence.
Qed.

Lemma fltb_true_fleb (x y : float) :
  is_number x -> is_number y -> fltb x y = true -> fleb x y = true.
Proof.
  intros Hx Hy H. apply (fleb_spec Hx Hy). intros Hlt.
  apply (fltb_spec Hx Hy) in H.
  exact (lex_lt_irrefl _ (lex_lt_trans _ _ _ H Hlt)).
Qed.

Lemma fleb_trans (x y z : float) :
  is_number x -> is_number y -> is_number z ->
  fleb x y = true -> fleb y z = true -> fleb x z = true.
Proof.
  intros Hx Hy Hz H1 H2.
  apply (fleb_spec Hx Hy) in H1. apply (fleb_spec Hy Hz) in H2.
  apply (fleb_spec Hx Hz). intros H.
  destruct (lex_lt_total (rank x) (rank y)) as [L|[E|L]].
  - apply H2. exact (lex_lt_trans _ _ _ H L).
  - apply H2. now rewrite <- E.
  - contradiction.
Qed.

(* ================================================================== *)
(** * Sums of non-negative floats *)

Lemma fnonneg_number (x : float) : fnonneg x -> is_number x.
Proof. intros H ->. exact H. Qed.

Lemma shr_1_nonneg (mrs : shr_record) :
  (0 <= shr_m mrs)%Z -> (0 <= shr_m (shr_1 mrs))%Z.
Proof.
  destruct mrs as [m r s]. simpl.
  destruct m as [|[p|p|]|p]; simpl; lia.
Qed.

Lemma iter_shr_1_nonneg (p : positive) :
  forall mrs, (0 <= shr_m mrs)%Z -> (0 <= shr_m (iter_pos shr_1 p mrs))%Z.
Proof.
  induction p as [p IH|p IH|]; simpl; intros mrs H.
  - apply IH, IH. now apply shr_1_nonneg.
  - now apply IH, IH.
  - now apply shr_1_nonneg.
Qed.

Lemma shr_fexp_nonneg (p e : Z) (m ex : Z) (l : location) :
  (0 <= m)%Z -> (0 <= shr_m (fst (shr_fexp p e m ex l)))%Z.
Proof.
  intros H. unfold shr_fexp, shr.
  assert (H0 : (0 <= shr_m (shr_record_of_loc m l))%Z).
  { destruct l as [|[]]; exact H. }
  destruct (fexp p e (Zdigits2 m + ex) - ex)%Z; simpl; try exact H0.
  now apply iter_shr_1_nonneg.
Qed.

Lemma round_nearest_even_nonneg (m : Z) (l : location) :
  (0 <= m)%Z -> (0 <= round_nearest_even m l)%Z.
Proof.
  intros H. destruct l as [|[]]; simpl; try lia.
  destruct (Z.even m); lia.
Qed.

(** Rounding a non-negative mantissa with the sign of a positive number
    gives [+0.0], a positive number or [+inf]. *)
Lemma binary_round_aux_nonneg (p e : Z) (m ex : Z) (l : location) :
  (0 <= m)%Z -> fnonneg (binary_round_aux p e false m ex l).
Proof.
  intros H. unfold binary_round_aux.
  pose proof (shr_fexp_nonneg p e ex l H) as H1.
  destruct (shr_fexp p e m ex l) as [mrs' e']. simpl in H1.
  pose proof (round_nearest_even_nonneg (loc_of_shr_record mrs') H1) as H2.
  pose proof (shr_fexp_nonneg p e e' loc_Exact H2) as H3.
  destruct (shr_fexp p e _ e' loc_Exact) as [mrs'' e'']. simpl in H3.
  destruct (shr_m mrs'') as [|m''|m'']; simpl; [exact I| |lia].
  destruct (e'' <=? e - p)%Z; exact I.
Qed.

Lemma binary_round_nonneg (p e : Z) (m : positive) (ex : Z) :
  fnonneg (binary_round p e false m ex).
Proof.
  unfold binary_round. destruct (shl_align m ex _) as [mz ez].
  apply binary_round_aux_nonneg. lia.
Qed.

Lemma fadd_nonneg (x y : float) : fnonneg x -> fnonneg y -> fnonneg (fadd x y).
Proof.
  destruct x as [[]|[]| |[] mx ex], y as [[]|[]| |[] my ey];
    simpl; intros Hx Hy; try contradiction; try exact I.
  apply binary_round_nonneg.
Qed.

Lemma fold_fadd_nonneg (ws : list float) :
  Forall fnonneg ws ->
  forall x, fnonneg x -> fnonneg (fold_left fadd ws x).
Proof.
  induction 1 as [|w ws Hw _ IH]; intros x Hx; simpl; [assumption|].
  apply IH. now apply fadd_nonneg.
Qed.

Lemma fnonneg_ge_zero (x : float) : fnonneg x -> fleb f0_0 x = true.
Proof. destruct x as [[]|[]| |[] m e]; simpl; intros H; try contradiction; reflexivity. Qed.

Lemma fmin_one_nonneg (x : float) : fnonneg x -> fnonneg (fmin x f1_0).
Proof. intros H. unfold fmin. destruct (fltb f1_0 x); [exact I|exact H]. Qed.

Lemma fmin_one_le (x : float) : is_number x -> fleb (fmin x f1_0) f1_0 = true.
Proof.
  intros H. unfold fmin. destruct (fltb f1_0 x) eqn:E; [reflexivity|].
  apply fltb_false_fleb; [discriminate|assumption|assumption].
Qed.

(* ================================================================== *)
(** * The link scorer *)

Lemma fold_left_inv {A B} (P : A -> Prop) (f : A -> B -> A) (l : list B) :
  (forall a b, P a -> P (f a b)) -> forall a, P a -> P (fold_left f l a).
Proof.
  intros Hf. induction l as [|b l IH]; intros a Ha; simpl; auto.
Qed.

Lemma bump_sum (c : bool) (w : float) (m : str) (acc : float * list str) :
  In w weights -> sum_of_weights (fst acc) ->
  sum_of_weights (fst (bump c w m acc)).
Proof.
  intros Hw (ws & Hws & E). unfold bump. destruct c; [|exists ws; auto].
  exists (ws ++ [w]). split.
  - apply Forall_app. auto.
  - simpl. now rewrite fold_left_app, <- E.
Qed.

Lemma weights_nonneg (w : float) : In w weights -> fnonneg w.
Proof. intros [<-|[<-|[<-|[]]]]; exact I. Qed.

Lemma sum_of_weights_nonneg (x : float) : sum_of_weights x -> fnonneg x.
Proof.
  intros (ws & Hws & ->). apply fold_fadd_nonneg; [|exact I].
  eapply Forall_impl; [|exact Hws]. apply weights_nonneg.
Qed.

(** The score is the sum of the weights of the matched fragments, capped. *)
Lemma score_link_text_sum (text link : str) (q : QueryParts) :
  exists x, sum_of_weights x
            /\ fst (score_link_text text link q) = fmin x f1_0.
Proof.
  unfold score_link_text. cbv zeta. cbn [fst].
  eexists. split; [|reflexivity].
  apply (fold_left_inv (fun acc => sum_of_weights (fst acc))).
  { intros a b Ha. apply bump_sum; [|exact Ha]. right. right. now left. }
  apply (fold_left_inv (fun acc => sum_of_weights (fst acc))).
  { intros a b Ha. apply bump_sum; [|exact Ha]. right. right. now left. }
  assert (H0 : sum_of_weights
                 (fst (fold_left
                         (fun acc tok =>
                            bump (truthy tok
                                  && contains tok
                                       (lower (text ++ py " " ++ link)))
                                 f0_15 tok acc)
                         (split (lower (name q))) (f0_0, [])))).
  { apply (fold_left_inv (fun acc => sum_of_weights (fst acc))).
    - intros a b Ha. apply bump_sum; [|exact Ha]. now left.
    - exists []. split; [constructor|reflexivity]. }
  assert (H1 : forall acc, sum_of_weights (fst acc) ->
               sum_of_weights
                 (fst match city q with
                      | Some c =>
                          bump (truthy c
                                && contains (lower c)
                                     (lower (text ++ py " " ++ link)))
                               f0_15 c acc
                      | None => acc
                      end)).
  { intros acc Ha. destruct (city q); [|exact Ha].
    apply bump_sum; [|exact Ha]. now left. }
  destruct (state q); [|now apply H1].
  apply bump_sum; [right; now left|now apply H1].
Qed.

(** C4: the score of a link lies in [0, 1].  It is a sum of the weights
    0.15, 0.10 and 0.20, none of them negative, added without bound and then
    capped at 1.0. *)
Theorem C4_score_in_unit_interval :
  forall (text link : str) (q : QueryParts),
    fleb f0_0 (fst (score_link_text text link q)) = true
    /\ fleb (fst (score_link_text text link q)) f1_0 = true
    /\ exists ws,
         Forall (fun w => In w weights /\ fleb f0_0 w = true) ws
         /\ fst (score_link_text text link q)
            = fmin (fold_left fadd ws f0_0) f1_0.
Proof.
  intros text link q.
  destruct (score_link_text_sum text link q) as (x & Hx & ->).
  pose proof (sum_of_weights_nonneg Hx) as Hn.
  split; [apply fnonneg_ge_zero, fmin_one_nonneg, Hn|].
  split; [apply fmin_one_le, fnonneg_number, Hn|].
  destruct Hx as (ws & Hws & ->). exists ws. split; [|reflexivity].
  eapply Forall_impl; [|exact Hws]. intros w Hw. split; [assumption|].
  apply fnonneg_ge_zero, weights_nonneg, Hw.
Qed.

Lemma score_link_text_nonneg (text link : str) (q : QueryParts) :
  fnonneg (fst (score_link_text text link q)).
Proof.
  destruct (score_link_text_sum text link q) as (x & Hx & ->).
  apply fmin_one_nonneg, sum_of_weights_nonneg, Hx.
Qed.

(** The scenario of the specification: three name and place fragments reach
    the threshold of the extraction. *)
Example score_john_smith :
  fleb f0_4
    (fst (score_link_text (py "John Smith Austin TX") (py "https://x.example/p")
            {| name := py "John Smith"; city := Some (py "Austin");
               state := Some (py "TX"); emails := []; phones := [];
               raw := py "John Smith, Austin TX" |})) = true.
Proof. vm_compute. reflexivity. Qed.

(* ================================================================== *)
(** * The stable sort into non-increasing keys *)

Section SortReverse.

Variables A K : Type.
Variable lt : K -> K -> bool.
Variable key : A -> K.

Lemma insert_desc_perm (x : A) (l : list A) :
  Permutation (x :: l) (insert_desc lt key x l).
Proof.
  induction l as [|y l IH]; simpl; [apply Permutation_refl|].
  destruct (lt (key x) (key y)); [|apply Permutation_refl].
  eapply Permutation_trans; [apply perm_swap|]. now apply perm_skip.
Qed.

Lemma sort_reverse_perm (l : list A) :
  Permutation l (sort_reverse lt key l).
Proof.
  induction l as [|x l IH]; simpl; [constructor|].
  eapply Permutation_trans; [|apply insert_desc_perm]. now apply perm_skip.
Qed.

(** The elements that are sorted, and the order that the sort is to
    reach. *)
Variable P : A -> Prop.
Variable R : A -> A -> Prop.

Hypothesis R_not_lt :
  forall x y, P x -> P y -> lt (key x) (key y) = false -> R x y.
Hypothesis R_lt :
  forall x y, P x -> P y -> lt (key x) (key y) = true -> R y x.
Hypothesis R_trans :
  forall x y z, P x -> P y -> P z -> R x y -> R y z -> R x z.

Lemma insert_desc_sorted (x : A) (l : list A) :
  P x -> Forall P l -> StronglySorted R l ->
  StronglySorted R (insert_desc lt key x l).
Proof.
  intros Hx. induction l as [|y l IH]; intros HP Hs; simpl.
  - repeat constructor.
  - inversion HP as [|? ? Hy HPl]; subst.
    apply StronglySorted_inv in Hs. destruct Hs as [Hs Hyl].
    destruct (lt (key x) (key y)) eqn:E.
    + constructor; [now apply IH|].
      eapply Permutation_Forall; [apply insert_desc_perm|].
      constructor; [now apply R_lt|assumption].
    + pose proof (R_not_lt Hx Hy E) as Hxy.
      constructor; [now constructor|].
      constructor; [assumption|].
      rewrite Forall_forall in *. intros z Hz.
      apply (R_trans Hx Hy (HPl z Hz) Hxy). now apply Hyl.
Qed.

Lemma sort_reverse_sorted (l : list A) :
  Forall P l -> StronglySorted R (sort_reverse lt key l).
Proof.
  induction 1 as [|x l Hx Hl IH]; simpl; [constructor|].
  apply insert_desc_sorted; [assumption| |assumption].
  eapply Permutation_Forall; [apply sort_reverse_perm|assumption].
Qed.

End SortReverse.

Lemma StronglySorted_firstn {A} (R : A -> A -> Prop) (n : nat) (l : list A) :
  StronglySorted R l -> StronglySorted R (firstn n l).
Proof.
  revert l. induction n as [|n IH]; intros l H; simpl; [constructor|].
  destruct l as [|x l]; [constructor|].
  apply StronglySorted_inv in H. destruct H as [H1 H2].
  constructor; [now apply IH|].
  rewrite Forall_forall in *. intros y Hy. apply H2.
  now apply In_firstn in Hy.
Qed.

Lemma slice_to_firstn {A} (j : nat) (l : list A) :
  slice_to (Z.of_nat j) l = firstn j l.
Proof.
  unfold slice_to.
  replace (Z.of_nat j <? 0)%Z with false by (symmetry; apply Z.ltb_ge; lia).
  destruct (Nat.le_gt_cases j (length l)).
  - f_equal. lia.
  - replace (Z.to_nat (Z.min (Z.of_nat j) (Z.of_nat (length l))))
      with (length l) by lia.
    now rewrite !firstn_all2 by lia.
Qed.

(* ================================================================== *)
(** * The per-site extraction *)

Section ScrapeFacts.

Variable httpx_present BeautifulSoup_present : bool.
Variable fetch : str -> result (list anchor).
Variable netloc : str -> result str.

Lemma scrape_anchor_kept (site0 domain : str) (q : QueryParts)
    (seen : list str) (a : anchor) (full : str) (item : ResultItem) :
  scrape_anchor netloc site0 domain q seen a = Ok (Some (full, Some item)) ->
  kept_item item.
Proof.
  unfold scrape_anchor.
  destruct (startswith (py "#") (href a)); [discriminate|].
  destruct (netloc (href a)) as [pn|e]; cbn [bind]; [|discriminate].
  destruct (index _ 0) as [host|e]; cbn [bind]; [|discriminate].
  destruct (negb _); [discriminate|].
  destruct (mem _ seen); [discriminate|].
  match goal with
  | |- context [score_link_text ?t ?f q] =>
      pose proof (score_link_text_nonneg t f q) as Hn;
      destruct (score_link_text t f q) as [sc matched]
  end.
  simpl in Hn. destruct (fleb f0_4 sc) eqn:Hs; [|discriminate].
  intros H. injection H as _ <-. unfold kept_item. simpl.
  split; [assumption|]. split; [assumption|].
  change 120%Z with (Z.of_nat 120). rewrite slice_to_firstn, length_firstn.
  lia.
Qed.

Lemma scrape_loop_kept (site0 domain : str) (q : QueryParts) :
  forall anchors seen out out',
    Forall kept_item out ->
    scrape_loop netloc site0 domain q seen out anchors = Ok out' ->
    Forall kept_item out'.
Proof.
  induction anchors as [|a anchors IH]; intros seen out out' Hout H;
    cbn [scrape_loop] in H.
  - injection H as <-. assumption.
  - destruct (scrape_anchor netloc site0 domain q seen a)
      as [[[full [item|]]|]|e] eqn:Ha; cbn [bind] in H; try discriminate.
    + apply IH in H; [assumption|]. apply Forall_app. split; [assumption|].
      constructor; [|constructor]. eapply scrape_anchor_kept, Ha.
    + now apply IH in H.
    + now apply IH in H.
Qed.

(** The list that the [try] block returns. *)
Lemma scrape_try_facts (site0 link : str) (q : QueryParts) (items : list ResultItem) :
  scrape_try fetch netloc site0 link q = Ok items ->
  Forall kept_item items /\ StronglySorted score_desc items
  /\ length items <= 15.
Proof.
  unfold scrape_try.
  destruct (fetch link) as [anchors|e]; cbn [bind]; [|discriminate].
  destruct (netloc link) as [nl|e]; cbn [bind]; [|discriminate].
  destruct (index _ 0) as [domain|e]; cbn [bind]; [|discriminate].
  destruct (scrape_loop netloc site0 domain q [] [] anchors)
    as [out|e] eqn:Hl; cbn [bind]; [|discriminate].
  intros H. injection H as <-.
  apply scrape_loop_kept in Hl; [|constructor].
  change 15%Z with (Z.of_nat 15). rewrite slice_to_firstn.
  assert (Hs : Forall kept_item (sort_reverse fltb score out)).
  { eapply Permutation_Forall; [apply sort_reverse_perm|assumption]. }
  split; [|split].
  - rewrite Forall_forall in *. intros x Hx. apply Hs.
    now apply In_firstn in Hx.
  - apply StronglySorted_firstn.
    apply sort_reverse_sorted with (P := fun x => fnonneg (score x)).
    + intros x y Hx Hy. apply fltb_false_fleb; now apply fnonneg_number.
    + intros x y Hx Hy. apply fltb_true_fleb; now apply fnonneg_number.
    + intros x y z Hx Hy Hz Hxy Hyz. unfold score_desc in *.
      apply fleb_trans with (y := score y);
        try (now apply fnonneg_number); assumption.
    + eapply Forall_impl; [|exact Hl]. intros x Hx. apply Hx.
  - rewrite length_firstn. lia.
Qed.

Lemma best_effort_scrape_facts (site0 link : str) (q : QueryParts) :
  let out :=
    best_effort_scrape httpx_present BeautifulSoup_present fetch netloc
                       site0 link q in
  Forall kept_item out /\ StronglySorted score_desc out /\ length out <= 15.
Proof.
  unfold best_effort_scrape.
  destruct (negb httpx_present || negb BeautifulSoup_present).
  - simpl. repeat constructor.
  - destruct (scrape_try fetch netloc site0 link q) as [items|e] eqn:H.
    + now apply scrape_try_facts in H.
    + simpl. repeat constructor.
Qed.

End ScrapeFacts.

(** The extraction on a page: of six links, the one that matches name, city
    and state on the domain of the site is kept, once. *)
Example scrape_demo_page :
  map (fun it => (site it, title it, url it))
      (best_effort_scrape true true demo_fetch demo_netloc (py "people")
         (py "https://people.example.com/search?q=john") demo_query)
  = [(py "people", py "John Smith, Austin TX",
      py "https://people.example.com/p/john-smith-austin-tx")].
Proof. vm_compute. reflexivity. Qed.

(** C6: the extraction for a site returns items of score 0.4 at least, in
    non-increasing order of score, fifteen at most, each with a title of 120
    characters at most; without [httpx] or without [bs4] it returns the empty
    list. *)
Theorem C6_extraction_filtered_sorted_capped :
  forall (httpx_present BeautifulSoup_present : bool)
         (fetch : str -> result (list anchor)) (netloc : str -> result str)
         (site0 link : str) (q : QueryParts),
    Forall (fun it => fleb f0_4 (score it) = true
                      /\ length (title it) <= 120)
           (best_effort_scrape httpx_present BeautifulSoup_present fetch
                               netloc site0 link q)
    /\ StronglySorted score_desc
         (best_effort_scrape httpx_present BeautifulSoup_present fetch
                             netloc site0 link q)
    /\ length (best_effort_scrape httpx_present BeautifulSoup_present fetch
                                  netloc site0 link q) <= 15
    /\ best_effort_scrape false BeautifulSoup_present fetch netloc
                          site0 link q = []
    /\ best_effort_scrape httpx_present false fetch netloc site0 link q = [].
Proof.
  intros hp bp fetch netloc site0 link q.
  destruct (best_effort_scrape_facts hp bp fetch netloc site0 link q)
    as (H1 & H2 & H3).
  split; [|split; [assumption|split; [assumption|split]]].
  - eapply Forall_impl; [|exact H1]. unfold kept_item. tauto.
  - reflexivity.
  - unfold best_effort_scrape. now rewrite orb_true_r.
Qed.

(* ================================================================== *)
(** * The dictionary of rows *)

Lemma find_app {A} (f : A -> bool) (l1 l2 : list A) :
  find f (l1 ++ l2) =
    match find f l1 with
    | Some x => Some x
    | None => find f l2
    end.
Proof.
  induction l1 as [|x l1 IH]; simpl; [reflexivity|].
  destruct (f x); [reflexivity|assumption].
Qed.

Lemma Permutation_filter {A} (f : A -> bool) (l l' : list A) :
  Permutation l l' -> Permutation (filter f l) (filter f l').
Proof.
  induction 1 as [|x l l' _ IH|x y l|l l' l'' _ IH1 _ IH2]; simpl.
  - constructor.
  - destruct (f x); [now constructor|assumption].
  - destruct (f x), (f y); try apply Permutation_refl. apply perm_swap.
  - eapply Permutation_trans; eassumption.
Qed.

Lemma lookup_dict_set {V} (k k' : str) (v : V) (d : list (str * V)) :
  lookup k (dict_set k' v d) =
    if str_eqb k k' then Some v else lookup k d.
Proof.
  unfold lookup. induction d as [|[k0 v0] d IH]; simpl.
  - destruct (str_eqb k k'); reflexivity.
  - destruct (str_eqb k' k0) eqn:E0; simpl.
    + apply str_eqb_eq in E0. subst k0.
      destruct (str_eqb k k'); reflexivity.
    + destruct (str_eqb k k0) eqn:E1; [|exact IH].
      apply str_eqb_eq in E1. subst k0.
      destruct (str_eqb k k') eqn:E2; [|reflexivity].
      apply str_eqb_eq in E2. subst k'. rewrite str_eqb_refl in E0.
      discriminate E0.
Qed.

Lemma keys_dict_set {V} (k : str) (v : V) (d : list (str * V)) (k' : str) :
  In k' (map fst (dict_set k v d)) <-> k' = k \/ In k' (map fst d).
Proof.
  induction d as [|[k0 v0] d IH]; simpl.
  - intuition congruence.
  - destruct (str_eqb k k0) eqn:E; simpl.
    + apply str_eqb_eq in E. subst k0. intuition congruence.
    + rewrite IH. intuition congruence.
Qed.

Lemma values_dict_set {V} (k : str) (v : V) (d : list (str * V)) (x : V) :
  In x (values (dict_set k v d)) -> x = v \/ In x (values d).
Proof.
  unfold values. induction d as [|[k0 v0] d IH]; simpl.
  - intuition congruence.
  - destruct (str_eqb k k0); simpl; intuition congruence.
Qed.

Lemma dict_set_rows_by_url (it : ResultItem) (d : list (str * ResultItem)) :
  rows_by_url d -> rows_by_url (dict_set (url it) it d).
Proof.
  intros [Hn Hu]. split.
  - induction d as [|[k0 v0] d IH]; simpl.
    + repeat constructor. simpl. tauto.
    + inversion Hn as [|? ? Hk0 Hd]; subst. inversion Hu; subst.
      destruct (str_eqb (url it) k0) eqn:E; simpl.
      * now constructor.
      * constructor; [|now apply IH].
        rewrite keys_dict_set. intros [->|H]; [|contradiction].
        rewrite str_eqb_refl in E. discriminate E.
  - clear Hn. induction Hu as [|[k0 v0] d H0 Hd IH]; simpl.
    + repeat constructor.
    + destruct (str_eqb (url it) k0) eqn:E.
      * apply str_eqb_eq in E. constructor; [exact E|assumption].
      * constructor; assumption.
Qed.

Lemma last_with_url_cons (u : str) (it : ResultItem) (rows : list ResultItem) :
  last_with_url u (it :: rows) =
    match last_with_url u rows with
    | Some x => Some x
    | None => if str_eqb (url it) u then Some it else None
    end.
Proof. unfold last_with_url. simpl. now rewrite find_app. Qed.

(** The dictionary comprehension keeps, under every address, the last row
    with that address. *)
Lemma fold_dict_set_spec (rows : list ResultItem) :
  forall d, rows_by_url d ->
    rows_by_url (fold_left (fun d it => dict_set (url it) it d) rows d)
    /\ (forall u,
          lookup u (fold_left (fun d it => dict_set (url it) it d) rows d) =
            match last_with_url u rows with
            | Some x => Some x
            | None => lookup u d
            end)
    /\ (forall x,
          In x (values (fold_left (fun d it => dict_set (url it) it d) rows d)) ->
          In x rows \/ In x (values d)).
Proof.
  induction rows as [|it rows IH]; intros d Hd; simpl.
  - auto.
  - destruct (IH _ (dict_set_rows_by_url it Hd)) as (H1 & H2 & H3).
    split; [assumption|]. split.
    + intros u. rewrite H2, last_with_url_cons, lookup_dict_set.
      destruct (last_with_url u rows); [reflexivity|].
      destruct (str_eqb u (url it)) eqn:E.
      * apply str_eqb_eq in E. subst u. now rewrite str_eqb_refl.
      * destruct (str_eqb (url it) u) eqn:E'; [|reflexivity].
        apply str_eqb_eq in E'. subst u. rewrite str_eqb_refl in E.
        discriminate E.
    + intros x Hx. apply H3 in Hx. destruct Hx as [Hx|Hx]; [auto|].
      apply values_dict_set in Hx. destruct Hx as [->|Hx]; auto.
Qed.

Lemma lookup_absent {V} (u : str) (d : list (str * V)) :
  ~ In u (map fst d) -> lookup u d = None.
Proof.
  unfold lookup. induction d as [|[k v] d IH]; simpl; [reflexivity|].
  intros H. destruct (str_eqb u k) eqn:E.
  - apply str_eqb_eq in E. subst k. tauto.
  - apply IH. tauto.
Qed.

(** In a dictionary of rows by address, the rows with an address are the
    row stored under it. *)
Lemma filter_url_values (u : str) (d : list (str * ResultItem)) :
  rows_by_url d ->
  filter (fun x => str_eqb (url x) u) (values d) =
    match lookup u d with
    | Some v => [v]
    | None => []
    end.
Proof.
  intros [Hn Hu]. induction d as [|[k v] d IH]; simpl; [reflexivity|].
  inversion Hn as [|? ? Hk Hd]; subst. inversion Hu as [|? ? Hv Hu']; subst.
  simpl in Hv. rewrite Hv. unfold lookup. simpl.
  destruct (str_eqb k u) eqn:E.
  - apply str_eqb_eq in E. subst u. rewrite str_eqb_refl. simpl.
    f_equal. rewrite (IH Hd Hu'). now rewrite (lookup_absent _ _ Hk).
  - destruct (str_eqb u k) eqn:E'.
    + apply str_eqb_eq in E'. subst u. rewrite str_eqb_refl in E.
      discriminate E.
    + now apply IH.
Qed.

Lemma rows_by_url_nil : rows_by_url [].
Proof. split; constructor. Qed.

Lemma last_with_url_exists (u : str) (rows : list ResultItem) :
  In u (map url rows) -> exists it, last_with_url u rows = Some it.
Proof.
  intros H. apply in_map_iff in H. destruct H as (x & <- & Hx).
  unfold last_with_url.
  destruct (find (fun y => str_eqb (url y) (url x)) (rev rows)) eqn:E;
    [eauto|].
  exfalso. apply find_none with (x := x) in E.
  - rewrite str_eqb_refl in E. discriminate E.
  - now apply in_rev in Hx.
Qed.

Lemma aggregate_perm (per_site : list (list ResultItem)) :
  Permutation (values (uniq (concat per_site))) (aggregate per_site).
Proof. unfold aggregate. apply sort_reverse_perm. Qed.

Lemma map_url_values (d : list (str * ResultItem)) :
  rows_by_url d -> map url (values d) = map fst d.
Proof.
  intros [_ Hu]. unfold values. rewrite map_map.
  induction Hu as [|kv d H _ IH]; simpl; [reflexivity|]. now rewrite H, IH.
Qed.

(** C7: the aggregation keeps one item for every address of the rows, and it
    is the last item with that address in the rows of the sites put end to
    end; it keeps nothing else. *)
Theorem C7_one_item_per_url_last_wins :
  forall per_site : list (list ResultItem),
    NoDup (map url (aggregate per_site))
    /\ (forall it, In it (aggregate per_site) -> In it (concat per_site))
    /\ (forall u, In u (map url (concat per_site)) ->
        exists it,
          last_with_url u (concat per_site) = Some it
          /\ filter (fun x => str_eqb (url x) u) (aggregate per_site) = [it]).
Proof.
  intros per_site.
  destruct (fold_dict_set_spec (concat per_site) rows_by_url_nil)
    as (Hwf & Hlook & Hin).
  fold (uniq (concat per_site)) in Hwf, Hlook, Hin.
  pose proof (aggregate_perm per_site) as Hp.
  split; [|split].
  - eapply Permutation_NoDup; [apply Permutation_map, Hp|].
    rewrite (map_url_values Hwf). apply Hwf.
  - intros it Hit. apply Permutation_sym in Hp.
    apply (Permutation_in _ Hp) in Hit. apply Hin in Hit.
    destruct Hit as [Hit|[]]. exact Hit.
  - intros u Hu. destruct (last_with_url_exists _ _ Hu) as (it & Hit).
    exists it. split; [assumption|].
    apply Permutation_length_1_inv.
    rewrite <- (Permutation_filter _ Hp), (filter_url_values u Hwf), Hlook, Hit.
    apply Permutation_refl.
Qed.

(* ================================================================== *)
(** * The final order *)

Lemma str_ltb_asym (a b : str) : str_ltb a b = true -> str_ltb b a = false.
Proof.
  revert b. induction a as [|x a IH]; intros [|y b]; simpl; try congruence.
  destruct (Nat.ltb_spec (code x) (code y)), (Nat.ltb_spec (code y) (code x));
    try congruence; try lia.
  apply IH.
Qed.

Lemma str_ltb_negtrans (a b c : str) :
  str_ltb a b = false -> str_ltb b c = false -> str_ltb a c = false.
Proof.
  revert b c. induction a as [|x a IH]; intros [|y b] [|z c]; simpl;
    try congruence.
  destruct (Nat.ltb_spec (code x) (code y)), (Nat.ltb_spec (code y) (code x)),
    (Nat.ltb_spec (code y) (code z)), (Nat.ltb_spec (code z) (code y)),
    (Nat.ltb_spec (code x) (code z)), (Nat.ltb_spec (code z) (code x));
    try congruence; try lia.
  apply IH.
Qed.

Lemma key_ltb_spec (a b : float * str) :
  is_number (fst a) -> is_number (fst b) ->
  (key_ltb a b = true <-> key_lt a b).
Proof.
  intros Ha Hb. unfold key_ltb, key_lt.
  pose proof (feqb_spec Ha Hb) as He. pose proof (fltb_spec Ha Hb) as Hl.
  destruct (feqb (fst a) (fst b)).
  - assert (E : rank (fst a) = rank (fst b)) by now apply He.
    split; [auto|]. intros [H|[_ H]]; [|assumption].
    rewrite E in H. now apply lex_lt_irrefl in H.
  - rewrite Hl. split; [auto|]. intros [H|[H _]]; [assumption|].
    apply He in H. discriminate H.
Qed.

Lemma key_lt_asym (a b : float * str) : key_lt a b -> ~ key_lt b a.
Proof.
  unfold key_lt. intros [H|[E H]] [H'|[E' H']].
  - exact (lex_lt_irrefl _ (lex_lt_trans _ _ _ H H')).
  - rewrite E' in H. exact (lex_lt_irrefl _ H).
  - rewrite E in H'. exact (lex_lt_irrefl _ H').
  - apply str_ltb_asym in H. congruence.
Qed.

Lemma key_lt_negtrans (a b c : float * str) :
  ~ key_lt a b -> ~ key_lt b c -> ~ key_lt a c.
Proof.
  unfold key_lt. intros Hab Hbc Hac.
  destruct (lex_lt_total (rank (fst a)) (rank (fst b))) as [L|[E|L]];
    [tauto| |].
  - destruct (lex_lt_total (rank (fst b)) (rank (fst c))) as [L'|[E'|L']];
      [tauto| |].
    + destruct Hac as [H|[_ H]].
      * rewrite E, E' in H. exact (lex_lt_irrefl _ H).
      * destruct (str_ltb (snd a) (snd b)) eqn:H1; [tauto|].
        destruct (str_ltb (snd b) (snd c)) eqn:H2; [tauto|].
        rewrite (str_ltb_negtrans _ _ _ H1 H2) in H. discriminate H.
    + destruct Hac as [H|[H _]].
      * rewrite E in H. exact (lex_lt_irrefl _ (lex_lt_trans _ _ _ H L')).
      * rewrite <- H, E in L'. exact (lex_lt_irrefl _ L').
  - destruct Hac as [H|[H _]].
    + destruct (lex_lt_total (rank (fst b)) (rank (fst c))) as [L'|[E'|L']];
        [tauto| |].
      * rewrite E' in L. exact (lex_lt_irrefl _ (lex_lt_trans _ _ _ H L)).
      * exact (lex_lt_irrefl _
                 (lex_lt_trans _ _ _ H (lex_lt_trans _ _ _ L' L))).
    + rewrite H in L. tauto.
Qed.

Lemma StronglySorted_impl {A} (P : A -> Prop) (R R' : A -> A -> Prop)
    (l : list A) :
  (forall a b, P a -> P b -> R a b -> R' a b) ->
  Forall P l -> StronglySorted R l -> StronglySorted R' l.
Proof.
  intros H HP. induction 1 as [|x l Hs IH Hx]; [constructor|].
  inversion HP as [|? ? Px Pl]; subst.
  constructor; [now apply IH|].
  rewrite Forall_forall in *. auto.
Qed.

(** The rows of the aggregation are sorted by their keys, from the greatest,
    when their scores are numbers. *)
Lemma aggregate_sorted (per_site : list (list ResultItem)) :
  Forall (fun x => is_number (score x)) (concat per_site) ->
  Forall (fun x => is_number (score x)) (aggregate per_site)
  /\ StronglySorted (fun a b => ~ key_lt (row_key a) (row_key b))
                    (aggregate per_site).
Proof.
  intros Hnum.
  destruct (fold_dict_set_spec (concat per_site) rows_by_url_nil)
    as (_ & _ & Hin).
  fold (uniq (concat per_site)) in Hin.
  assert (Hv : Forall (fun x => is_number (score x))
                      (values (uniq (concat per_site)))).
  { rewrite Forall_forall in *. intros x Hx. apply Hnum.
    destruct (Hin x Hx) as [H|[]]. exact H. }
  split.
  - eapply Permutation_Forall; [apply aggregate_perm|assumption].
  - unfold aggregate.
    apply sort_reverse_sorted with (P := fun x => is_number (score x));
      [| | |assumption].
    + intros x y Hx Hy H Hlt.
      apply (key_ltb_spec (row_key x) (row_key y) Hx Hy) in Hlt.
      unfold row_key in Hlt. congruence.
    + intros x y Hx Hy H.
      apply (key_ltb_spec (row_key x) (row_key y) Hx Hy) in H.
      now apply key_lt_asym.
    + intros x y z _ _ _. apply key_lt_negtrans.
Qed.

(** C2, as stated, fails: two items of equal score from the sites ["a"] and
    ["b"] come out with ["b"] first. *)
Lemma C2_ties_not_ascending :
  ~ StronglySorted (fun a b => score_desc a b /\ tie_site_asc a b)
                   (aggregate tied_rows).
Proof.
  intros H. apply StronglySorted_inv in H. destruct H as [_ H].
  apply Forall_inv in H. destruct H as [_ H].
  specialize (H eq_refl). vm_compute in H. discriminate H.
Qed.

Example tied_rows_order :
  map site (aggregate tied_rows) = [py "b"; py "a"].
Proof. vm_compute. reflexivity. Qed.

Lemma aggregate_sorted_desc (per_site : list (list ResultItem)) :
  Forall (Forall (fun x => is_number (score x))) per_site ->
  StronglySorted (fun a b => score_desc a b /\ tie_site_desc a b)
                 (aggregate per_site).
Proof.
  intros Hnum.
  assert (Hc : Forall (fun x => is_number (score x)) (concat per_site)).
  { apply Forall_concat. exact Hnum. }
  destruct (aggregate_sorted per_site Hc) as [HP Hs].
  apply StronglySorted_impl
    with (P := fun x => is_number (score x))
         (R := fun a b => ~ key_lt (row_key a) (row_key b));
    [|assumption|assumption].
  intros a b Ha Hb Hab. unfold key_lt, row_key in Hab. simpl in Hab. split.
  - unfold score_desc. apply (fleb_spec Hb Ha). tauto.
  - intros He. apply (feqb_spec Ha Hb) in He.
    destruct (str_ltb (site a) (site b)); [|reflexivity]. tauto.
Qed.

(** C2, amended: when the scores of the rows are numbers, the aggregated
    sequence is sorted non-increasing by score, and two items of equal score
    stand in descending order of their site identifiers. *)
Theorem C2_sorted_by_score_then_site_descending :
  forall per_site : list (list ResultItem),
    Forall (Forall (fun x => is_number (score x))) per_site ->
    StronglySorted (fun a b => score_desc a b /\ tie_site_desc a b)
                   (aggregate per_site).
Proof. exact aggregate_sorted_desc. Qed.

Lemma C2_sorted_by_score_then_site_descending_witness :
  Forall (Forall (fun x => is_number (score x))) tied_rows
  /\ StronglySorted (fun a b => score_desc a b /\ tie_site_desc a b)
                    (aggregate tied_rows).
Proof.
  assert (H : Forall (Forall (fun x => is_number (score x))) tied_rows).
  { repeat constructor; discriminate. }
  split; [exact H|].
  exact (@C2_sorted_by_score_then_site_descending tied_rows H).
Defined.

(** The rows that [main] aggregates come from the extraction, whose scores
    are numbers: their final order needs no assumption. *)
Lemma aggregate_of_scrapes_sorted
    (httpx_present BeautifulSoup_present : bool)
    (fetch : str -> result (list anchor)) (netloc : str -> result str)
    (q : QueryParts) (filtered : list (str * str)) :
  StronglySorted (fun a b => score_desc a b /\ tie_site_desc a b)
    (aggregate
       (map (fun su => best_effort_scrape httpx_present BeautifulSoup_present
                         fetch netloc (fst su) (snd su) q)
            filtered)).
Proof.
  apply aggregate_sorted_desc. apply Forall_forall. intros l Hl.
  apply in_map_iff in Hl. destruct Hl as ([s u] & <- & _).
  destruct (best_effort_scrape_facts httpx_present BeautifulSoup_present
              fetch netloc s u q) as (H & _).
  eapply Forall_impl; [|exact H].
  intros x (_ & Hx & _). now apply fnonneg_number.
Qed.

(* ================================================================== *)
(** * Further properties of the identity parser *)

(** The record of the parser, with the segment that gives the name and the
    outcome of the scan for the region code. *)
Lemma smart_parse_shape (q : str) :
  exists nm0 c s,
    smart_parse q =
      Ok {| name := join (py " ")
                      (map (fun w => if isalpha w then capitalize w else w)
                           (split nm0));
            city := c; state := s;
            emails := findall EMAIL_RE q;
            phones := map (fun p => slice_from (-10) (sub_nondigit p))
                          (findall PHONE_RE q);
            raw := q |}
    /\ scan_state (slice_from 1 (parts_of (residual q))) = Ok (c, s).
Proof.
  unfold smart_parse.
  destruct (truthy (parts_of (residual q))) eqn:Hp.
  - set (cands := filter _ (parts_of (residual q))).
    assert (Hn : exists a,
               (if truthy cands then index cands 0
                else index (parts_of (residual q)) 0) = Ok a).
    { destruct (truthy cands) eqn:Hc.
      - destruct (index_0_ok _ Hc) as (a & Ha & _). eauto.
      - destruct (index_0_ok _ Hp) as (a & Ha & _). eauto. }
    destruct Hn as (a & ->).
    destruct (scan_state_ok (slice_from 1 (parts_of (residual q))))
      as (c & s & Hs & _).
    cbn [bind]. rewrite Hs. cbn [bind].
    exists a, c, s. split; reflexivity.
  - apply truthy_false in Hp. rewrite Hp. cbn [bind].
    exists [], None, None. split; reflexivity.
Qed.

Lemma mem_In (x : str) (l : list str) : mem x l = true <-> In x l.
Proof.
  unfold mem. rewrite existsb_exists. split.
  - intros (y & Hy & E). apply str_eqb_eq in E. now subst.
  - intros H. exists x. split; [assumption|apply str_eqb_refl].
Qed.

Lemma scan_state_member (segs : list str) (c s : option str) :
  scan_state segs = Ok (c, s) ->
  match s with
  | Some st => In st STATE_ABBR
  | None => c = None
  end.
Proof.
  induction segs as [|seg segs IH]; cbn [scan_state].
  - intros H. injection H as <- <-. reflexivity.
  - destruct (truthy (split (replace seg (py ".") (py " ")))) eqn:Ht;
      [|exact IH].
    destruct (index_last_ok _ Ht) as (a & -> & _). cbn [bind].
    destruct (mem (upper a) STATE_ABBR) eqn:Hm; [|exact IH].
    intros H. injection H as <- <-. apply mem_In. exact Hm.
Qed.

(** X1: the state of the parsed record, when present, is one of the region
    codes of [STATE_ABBR]; when the state is absent, so is the city. *)
Theorem X1_state_is_region_code :
  forall q, exists r,
    smart_parse q = Ok r
    /\ match state r with
       | Some st => In st STATE_ABBR
       | None => city r = None
       end.
Proof.
  intros q. destruct (smart_parse_shape q) as (nm0 & c & s & -> & Hs).
  eexists. split; [reflexivity|]. simpl. now apply scan_state_member in Hs.
Qed.

(** ** Texts without comma *)

Lemma replace_from_chars (P : ascii -> Prop) (old new : str) :
  Forall P new ->
  forall s k, Forall P s -> Forall P (replace_from old new k s).
Proof.
  intros Hnew. induction s as [|c s IH]; intros k Hs; simpl; [constructor|].
  inversion Hs; subst. destruct k as [|k]; [|now apply IH].
  destruct (startswith old (c :: s)).
  - apply Forall_app. split; [assumption|now apply IH].
  - constructor; [assumption|now apply IH].
Qed.

Lemma intersperse_chars (P : ascii -> Prop) (new s : str) :
  Forall P new -> Forall P s -> Forall P (intersperse new s).
Proof.
  intros Hnew. induction 1 as [|c s Hc _ IH]; simpl; [assumption|].
  apply Forall_app. split; [assumption|now constructor].
Qed.

Lemma replace_chars (P : ascii -> Prop) (s old new : str) :
  Forall P new -> Forall P s -> Forall P (replace s old new).
Proof.
  intros Hnew Hs. unfold replace. destruct old.
  - now apply intersperse_chars.
  - now apply replace_from_chars.
Qed.

(** The residual text is made of characters of the text and of spaces. *)
Lemma residual_chars (P : ascii -> Prop) (q : str) :
  P " "%char -> Forall P q -> Forall P (residual q).
Proof.
  intros Hsp Hq. rewrite residual_fold.
  apply (fold_left_inv (Forall P)); [|assumption].
  intros a b Ha. apply replace_chars; [|assumption].
  repeat constructor. exact Hsp.
Qed.

Lemma split_on_absent (sep : ascii) (s : str) :
  ~ In sep s -> split_on sep s = [s].
Proof.
  induction s as [|c s IH]; simpl; intros H; [reflexivity|].
  destruct (Ascii.eqb c sep) eqn:E.
  - apply Ascii.eqb_eq in E. tauto.
  - rewrite IH by tauto. reflexivity.
Qed.

Lemma parts_of_no_comma (w : str) :
  ~ In ","%char w -> slice_from 1 (parts_of w) = [].
Proof.
  intros H. unfold parts_of. rewrite (split_on_absent _ _ H). simpl.
  destruct (truthy (strip w)); reflexivity.
Qed.

(** X2: only commas make segments.  A text without comma has neither city
    nor state, whatever its words are. *)
Theorem X2_no_comma_no_city_no_state :
  forall q, ~ In ","%char q ->
  exists r, smart_parse q = Ok r /\ city r = None /\ state r = None.
Proof.
  intros q Hq. destruct (smart_parse_shape q) as (nm0 & c & s & -> & Hs).
  eexists. split; [reflexivity|]. simpl.
  rewrite parts_of_no_comma in Hs.
  - injection Hs as <- <-. auto.
  - assert (HF : Forall (fun c => c <> ","%char) (residual q)).
    { apply residual_chars; [discriminate|].
      apply Forall_forall. intros c0 Hc0 ->. contradiction. }
    rewrite Forall_forall in HF. intros Hin. now apply (HF _ Hin).
Qed.

Lemma X2_no_comma_no_city_no_state_witness :
  ~ In ","%char (py "Jane Doe Austin TX")
  /\ exists r,
       smart_parse (py "Jane Doe Austin TX") = Ok r
       /\ city r = None /\ state r = None.
Proof.
  assert (H : ~ In ","%char (py "Jane Doe Austin TX")).
  { vm_compute. intuition discriminate. }
  split; [exact H|]. exact (@X2_no_comma_no_city_no_state _ H).
Defined.

(** ** The shape of the emails *)

Lemma plus_lang_inv (p : ascii -> bool) (w : str) :
  re_lang (Plus p) w -> w <> [] /\ Forall (fun c => p c = true) w.
Proof. intros H. inversion H; subst. auto. Qed.

Lemma chr_lang_inv (c : ascii) (w : str) : re_lang (Chr c) w -> w = [c].
Proof.
  unfold Chr. intros H. inversion H as [|p d Hd| | | |]; subst.
  apply Ascii.eqb_eq in Hd. now subst.
Qed.

Lemma email_lang_parts (w : str) :
  re_lang EMAIL_RE w ->
  exists l d t,
    w = l ++ "@"%char :: d ++ "."%char :: t
    /\ l <> [] /\ Forall (fun c => email_char c = true) l
    /\ d <> [] /\ Forall (fun c => email_char c = true) d
    /\ t <> [] /\ Forall (fun c => isword c = true) t.
Proof.
  unfold EMAIL_RE. intros H.
  repeat match goal with
         | H : re_lang (Cat _ _) _ |- _ => inversion H; subst; clear H
         end.
  repeat match goal with
         | H : re_lang (Plus _) _ |- _ => apply plus_lang_inv in H; destruct H
         | H : re_lang (Chr _) _ |- _ => apply chr_lang_inv in H; subst
         end.
  exists w1, w2, w5. split; [reflexivity|]. auto 10.
Qed.

(** X3: every entry of [emails] occurs in the text and reads
    [local@domain.tld]: a non-empty local part and a non-empty domain of word
    characters, dots and hyphens, then a dot and a non-empty run of word
    characters. *)
Theorem X3_emails_shape :
  forall q, exists r,
    smart_parse q = Ok r
    /\ Forall (fun e =>
                 occurs e q
                 /\ exists l d t,
                      e = l ++ "@"%char :: d ++ "."%char :: t
                      /\ l <> [] /\ Forall (fun c => email_char c = true) l
                      /\ d <> [] /\ Forall (fun c => email_char c = true) d
                      /\ t <> [] /\ Forall (fun c => isword c = true) t)
              (emails r).
Proof.
  intros q. destruct (smart_parse_shape q) as (nm0 & c & s & -> & _).
  eexists. split; [reflexivity|]. simpl.
  apply Forall_forall. intros e He. apply findall_sound in He.
  destruct He as [He Ho]. split; [assumption|now apply email_lang_parts].
Qed.

(** ** Tokens: [split] and [join] *)







Lemma lower_char_space (c : ascii) : isspace (lower_char c) = isspace c.
Proof. destruct c as [[] [] [] [] [] [] [] []]; reflexivity. Qed.




Lemma lower_token (t : str) : token t -> token (lower t).
Proof.
  intros [Hne Hns]. split.
  - destruct t; [congruence|discriminate].
  - unfold lower. apply Forall_map. eapply Forall_impl; [|exact Hns].
    intros c Hc. now rewrite lower_char_space.
Qed.





(* ================================================================== *)
(** * Further properties of the link scorer *)





Lemma bump_count (c : bool) (w : float) (m : str) (acc : float * list str) :
  In w weights -> sum_with_count acc -> sum_with_count (bump c w m acc).
Proof.
  intros Hw (ws & Hws & E & Hl). unfold bump.
  destruct c; [|exists ws; auto].
  exists (ws ++ [w]). split; [|split].
  - apply Forall_app. auto.
  - simpl. now rewrite fold_left_app, <- E.
  - simpl. rewrite !length_app. simpl. lia.
Qed.

(** The score is the capped sum of one weight for each matched fragment. *)
Lemma score_link_text_count (text link : str) (q : QueryParts) :
  exists ws,
    Forall (fun w => In w weights) ws
    /\ length ws = length (snd (score_link_text text link q))
    /\ fst (score_link_text text link q) = fmin (fold_left fadd ws f0_0) f1_0.
Proof.
  unfold score_link_text. cbv zeta. cbn [fst snd].
  match goal with
  | |- context [fmin (fst ?a) f1_0] =>
      assert (H : sum_with_count a);
      [|destruct H as (ws & Hws & E & Hl); exists ws; rewrite E; auto]
  end.
  apply (fold_left_inv sum_with_count).
  { intros a b Ha. apply bump_count; [|exact Ha]. right. right. now left. }
  apply (fold_left_inv sum_with_count).
  { intros a b Ha. apply bump_count; [|exact Ha]. right. right. now left. }
  assert (H0 : sum_with_count
                 (fold_left
                    (fun acc tok =>
                       bump (truthy tok
                             && contains tok (lower (text ++ py " " ++ link)))
                            f0_15 tok acc)
                    (split (lower (name q))) (f0_0, []))).
  { apply (fold_left_inv sum_with_count).
    - intros a b Ha. apply bump_count; [|exact Ha]. now left.
    - exists []. repeat split; constructor. }
  assert (H1 : forall acc, sum_with_count acc ->
               sum_with_count
                 match city q with
                 | Some c =>
                     bump (truthy c
                           && contains (lower c)
                                (lower (text ++ py " " ++ link)))
                          f0_15 c acc
                 | None => acc
                 end).
  { intros acc Ha. destruct (city q); [|exact Ha].
    apply bump_count; [|exact Ha]. now left. }
  destruct (state q); [|now apply H1].
  apply bump_count; [right; now left|now apply H1].
Qed.

(** X6: a link without matched fragment has the score [0.0], and a link
    whose score reaches the threshold 0.4 of the extraction has two matched
    fragments at least: one fragment alone weighs 0.20 at most. *)
Theorem X6_threshold_needs_two_fragments :
  forall (text link : str) (q : QueryParts),
    (snd (score_link_text text link q) = [] ->
     fst (score_link_text text link q) = f0_0)
    /\ (fleb f0_4 (fst (score_link_text text link q)) = true ->
        2 <= length (snd (score_link_text text link q))).
Proof.
  intros text link q.
  destruct (score_link_text_count text link q) as (ws & Hws & Hl & E).
  rewrite E, <- Hl. clear E. split.
  - intros H. rewrite H in Hl. destruct ws; [reflexivity|discriminate Hl].
  - clear Hl. intros H. destruct ws as [|w [|w' ws]]; simpl; try lia.
    + discriminate H.
    + inversion Hws as [|? ? Hw _]; subst.
      destruct Hw as [<-|[<-|[<-|[]]]]; discriminate H.
Qed.

Lemma X6_threshold_needs_two_fragments_witness :
  fleb f0_4
    (fst (score_link_text (py "John Smith Austin TX") (py "https://x.example/p")
            demo_query)) = true
  /\ 2 <= length (snd (score_link_text (py "John Smith Austin TX")
                         (py "https://x.example/p") demo_query)).
Proof.
  assert (H : fleb f0_4
                (fst (score_link_text (py "John Smith Austin TX")
                        (py "https://x.example/p") demo_query)) = true).
  { vm_compute. reflexivity. }
  split; [exact H|].
  exact (proj2 (X6_threshold_needs_two_fragments
                  (py "John Smith Austin TX") (py "https://x.example/p")
                  demo_query) H).
Defined.

(* ================================================================== *)
(** * Further properties of the per-site extraction *)

Lemma list_eqb_eq (a b : list str) : list_eqb a b = true <-> a = b.
Proof.
  revert b. induction a as [|x a IH]; intros [|y b]; simpl; split;
    try congruence.
  - intros H. apply andb_true_iff in H. destruct H as [H1 H2].
    apply str_eqb_eq in H1. apply IH in H2. congruence.
  - intros H. injection H as -> ->. apply andb_true_iff. split.
    + apply str_eqb_refl.
    + now apply IH.
Qed.

Lemma mem_false (x : str) (l : list str) : mem x l = false -> ~ In x l.
Proof. intros H Hin. apply mem_In in Hin. congruence. Qed.

Lemma NoDup_firstn {A} (n : nat) (l : list A) : NoDup l -> NoDup (firstn n l).
Proof.
  revert l. induction n as [|n IH]; intros l H; simpl; [constructor|].
  destruct l as [|x l]; [constructor|]. inversion H; subst.
  constructor; [|now apply IH]. intros Hin. now apply In_firstn in Hin.
Qed.

Section ScrapeMore.

Variable httpx_present BeautifulSoup_present : bool.
Variable fetch : str -> result (list anchor).
Variable netloc : str -> result str.

(** An anchor that gives an item: the item is made of the anchor, and its
    address is new. *)
Lemma scrape_anchor_item (site0 domain : str) (q : QueryParts)
    (seen : list str) (a : anchor) (full : str) (item : ResultItem) :
  scrape_anchor netloc site0 domain q seen a = Ok (Some (full, Some item)) ->
  from_anchor netloc site0 domain q a item
  /\ full = url item /\ ~ In full seen.
Proof.
  unfold scrape_anchor, from_anchor.
  destruct (startswith (py "#") (href a)); [discriminate|].
  destruct (netloc (href a)) as [pn|e]; cbn [bind]; [|discriminate].
  destruct (index _ 0) as [host|e] eqn:Hh; cbn [bind]; [|discriminate].
  destruct (list_eqb _ _) eqn:Hd; cbn [negb]; [|discriminate].
  destruct (mem _ seen) eqn:Hm; [discriminate|].
  destruct (score_link_text _ _ q) as [sc matched] eqn:Hs.
  destruct (fleb f0_4 sc); [|discriminate].
  intros H. injection H as <- <-. cbn [url site title score matched_fields].
  split; [|split; [reflexivity|now apply mem_false]].
  split; [reflexivity|]. exists pn, host.
  apply list_eqb_eq in Hd.
  repeat (split; [first [reflexivity|assumption]|]).
  symmetry. exact Hs.
Qed.

Lemma scrape_anchor_seen (site0 domain : str) (q : QueryParts)
    (seen : list str) (a : anchor) (full : str) :
  scrape_anchor netloc site0 domain q seen a = Ok (Some (full, None)) ->
  ~ In full seen.
Proof.
  unfold scrape_anchor.
  destruct (startswith (py "#") (href a)); [discriminate|].
  destruct (netloc (href a)) as [pn|e]; cbn [bind]; [|discriminate].
  destruct (index _ 0) as [host|e]; cbn [bind]; [|discriminate].
  destruct (negb _); [discriminate|].
  destruct (mem _ seen) eqn:Hm; [discriminate|].
  destruct (score_link_text _ _ q) as [sc matched].
  destruct (fleb f0_4 sc); [discriminate|].
  intros H. injection H as <-. now apply mem_false.
Qed.

(** The loop keeps: every item comes from an anchor of the page, the
    addresses of the items are among the addresses seen, and no address is
    there twice. *)
Lemma scrape_loop_items (site0 domain : str) (q : QueryParts)
    (page : list anchor) :
  forall anchors seen out out',
    incl anchors page ->
    Forall (fun it => exists a, In a page
                                /\ from_anchor netloc site0 domain q a it) out ->
    incl (map url out) seen -> NoDup (map url out) ->
    scrape_loop netloc site0 domain q seen out anchors = Ok out' ->
    Forall (fun it => exists a, In a page
                                /\ from_anchor netloc site0 domain q a it) out'
    /\ NoDup (map url out').
Proof.
  induction anchors as [|a anchors IH]; intros seen out out' Hpage Hout Hseen
    Hnd H; cbn [scrape_loop] in H.
  - injection H as <-. auto.
  - assert (Hpage' : incl anchors page).
    { intros x Hx. apply Hpage. now right. }
    destruct (scrape_anchor netloc site0 domain q seen a)
      as [[[full [item|]]|]|e] eqn:Ha; cbn [bind] in H; try discriminate.
    + apply scrape_anchor_item in Ha. destruct Ha as (Hfrom & -> & Hnew).
      apply IH in H; try assumption.
      * apply Forall_app. split; [assumption|].
        constructor; [|constructor]. exists a. split; [|assumption].
        apply Hpage. now left.
      * rewrite map_app. simpl. intros u Hu. apply in_app_or in Hu.
        destruct Hu as [Hu|[<-|[]]]; [right; now apply Hseen|now left].
      * rewrite map_app. simpl. apply NoDup_app; [assumption| |].
        -- repeat constructor. tauto.
        -- intros u Hu [<-|[]]. apply Hnew. now apply Hseen.
    + apply IH in H; try assumption.
      intros u Hu. right. now apply Hseen.
    + now apply IH in H.
Qed.

Lemma scrape_try_items (site0 link : str) (q : QueryParts)
    (items : list ResultItem) :
  scrape_try fetch netloc site0 link q = Ok items ->
  exists page nl domain,
    fetch link = Ok page /\ netloc link = Ok nl
    /\ index (split_on ":" nl) 0 = Ok domain
    /\ Forall (fun it => exists a, In a page
                                   /\ from_anchor netloc site0 domain q a it)
              items
    /\ NoDup (map url items).
Proof.
  unfold scrape_try.
  destruct (fetch link) as [page|e] eqn:Hf; cbn [bind]; [|discriminate].
  destruct (netloc link) as [nl|e] eqn:Hn; cbn [bind]; [|discriminate].
  destruct (index _ 0) as [domain|e] eqn:Hd; cbn [bind]; [|discriminate].
  destruct (scrape_loop netloc site0 domain q [] [] page)
    as [out|e] eqn:Hl; cbn [bind]; [|discriminate].
  intros H. injection H as <-.
  apply (@scrape_loop_items site0 domain q page) in Hl;
    [|apply incl_refl|constructor|intros u []|constructor].
  destruct Hl as [H1 H2].
  exists page, nl, domain.
  split; [reflexivity|]. split; [reflexivity|]. split; [exact Hd|].
  change 15%Z with (Z.of_nat 15). rewrite slice_to_firstn.
  pose proof (sort_reverse_perm fltb score out) as Hp.
  split.
  - apply Forall_forall. intros x Hx.
    rewrite Forall_forall in H1. apply H1.
    apply In_firstn in Hx. apply Permutation_sym in Hp.
    exact (Permutation_in _ Hp Hx).
  - rewrite <- firstn_map. apply NoDup_firstn.
    eapply Permutation_NoDup; [apply Permutation_map, Hp|assumption].
Qed.

(** An anchor of the page whose address [urlparse] refuses stops the
    loop. *)
Lemma scrape_loop_raises (site0 domain : str) (q : QueryParts) (a : anchor)
    (e : exn) :
  startswith (py "#") (href a) = false -> netloc (href a) = Raise e ->
  forall anchors seen out,
    In a anchors ->
    exists e', scrape_loop netloc site0 domain q seen out anchors = Raise e'.
Proof.
  intros Hf He. induction anchors as [|b anchors IH]; intros seen out Hin;
    [contradiction|].
  cbn [scrape_loop].
  destruct (scrape_anchor netloc site0 domain q seen b)
    as [[[full [item|]]|]|e'] eqn:Hb; cbn [bind]; eauto.
  - destruct Hin as [->|Hin]; [|now apply IH].
    unfold scrape_anchor in Hb. rewrite Hf, He in Hb. discriminate Hb.
  - destruct Hin as [->|Hin]; [|now apply IH].
    unfold scrape_anchor in Hb. rewrite Hf, He in Hb. discriminate Hb.
  - destruct Hin as [->|Hin]; [|now apply IH].
    unfold scrape_anchor in Hb. rewrite Hf, He in Hb. discriminate Hb.
Qed.

End ScrapeMore.

(** X7: the items that the extraction returns for a site carry the
    identifier of the site, and no two of them have the same address. *)
Theorem X7_extraction_distinct_urls_of_site :
  forall (httpx_present BeautifulSoup_present : bool)
         (fetch : str -> result (list anchor)) (netloc : str -> result str)
         (site0 link : str) (q : QueryParts),
    NoDup (map url (best_effort_scrape httpx_present BeautifulSoup_present
                                       fetch netloc site0 link q))
    /\ Forall (fun it => site it = site0)
              (best_effort_scrape httpx_present BeautifulSoup_present
                                  fetch netloc site0 link q).
Proof.
  intros hp bp fetch netloc site0 link q. unfold best_effort_scrape.
  destruct (negb hp || negb bp); [split; constructor|].
  destruct (scrape_try fetch netloc site0 link q) as [items|e] eqn:H;
    [|split; constructor].
  apply scrape_try_items in H.
  destruct H as (page & nl & domain & _ & _ & _ & H1 & H2).
  split; [assumption|]. eapply Forall_impl; [|exact H1].
  intros it (a & _ & _ & pn & host & H). tauto.
Qed.

(** X8: every item that the extraction returns comes from an anchor of the
    fetched page that is no fragment link and whose host has the last two
    labels of the domain of the page; its address is the [href] itself, or
    [https://], the domain and the [href] when the [href] has no host; its
    title is the first 120 characters of the stripped link text; score and
    matched fragments are those of the whole stripped link text and the
    address. *)
Theorem X8_extraction_item_provenance :
  forall (httpx_present BeautifulSoup_present : bool)
         (fetch : str -> result (list anchor)) (netloc : str -> result str)
         (site0 link : str) (q : QueryParts),
    Forall (fun it =>
              exists page nl domain a,
                fetch link = Ok page /\ netloc link = Ok nl
                /\ index (split_on ":" nl) 0 = Ok domain
                /\ In a page
                /\ from_anchor netloc site0 domain q a it)
           (best_effort_scrape httpx_present BeautifulSoup_present
                               fetch netloc site0 link q).
Proof.
  intros hp bp fetch netloc site0 link q. unfold best_effort_scrape.
  destruct (negb hp || negb bp); [constructor|].
  destruct (scrape_try fetch netloc site0 link q) as [items|e] eqn:H;
    [|constructor].
  apply scrape_try_items in H.
  destruct H as (page & nl & domain & Hf & Hn & Hd & H1 & _).
  eapply Forall_impl; [|exact H1].
  intros it (a & Ha & Hfrom). exists page, nl, domain, a. auto.
Qed.

(** X9: the [try] block spans the whole loop.  One link of the page whose
    address [urlparse] refuses, and that is no fragment link, makes the
    extraction return the empty list, whatever the other links are. *)
Theorem X9_malformed_href_voids_page :
  forall (httpx_present BeautifulSoup_present : bool)
         (fetch : str -> result (list anchor)) (netloc : str -> result str)
         (site0 link : str) (q : QueryParts)
         (page : list anchor) (a : anchor) (e : exn),
    fetch link = Ok page -> In a page ->
    startswith (py "#") (href a) = false -> netloc (href a) = Raise e ->
    best_effort_scrape httpx_present BeautifulSoup_present fetch netloc
                       site0 link q = [].
Proof.
  intros hp bp fetch netloc site0 link q page a e Hf Hin Hs He.
  unfold best_effort_scrape.
  destruct (negb hp || negb bp); [reflexivity|].
  unfold scrape_try. rewrite Hf. cbn [bind].
  destruct (netloc link) as [nl|e1]; cbn [bind]; [|reflexivity].
  destruct (index _ 0) as [domain|e2]; cbn [bind]; [|reflexivity].
  destruct (scrape_loop_raises netloc site0 domain q a Hs He page [] [] Hin)
    as (e' & ->).
  reflexivity.
Qed.

Lemma X9_malformed_href_voids_page_witness :
  (demo_fetch_malformed (py "https://people.example.com/search") =
     Ok [ {| href := py "/p/john-smith-austin-tx";
             get_text := py "John Smith, Austin TX" |};
          {| href := py "http://[broken"; get_text := py "Broken" |} ]
   /\ In {| href := py "http://[broken"; get_text := py "Broken" |}
         [ {| href := py "/p/john-smith-austin-tx";
              get_text := py "John Smith, Austin TX" |};
           {| href := py "http://[broken"; get_text := py "Broken" |} ]
   /\ startswith (py "#") (py "http://[broken") = false
   /\ demo_netloc_strict (py "http://[broken") = Raise ValueError)
  /\ best_effort_scrape true true demo_fetch_malformed demo_netloc_strict
       (py "people") (py "https://people.example.com/search") demo_query = [].
Proof.
  assert (H1 : demo_fetch_malformed (py "https://people.example.com/search") =
     Ok [ {| href := py "/p/john-smith-austin-tx";
             get_text := py "John Smith, Austin TX" |};
          {| href := py "http://[broken"; get_text := py "Broken" |} ])
    by reflexivity.
  assert (H2 : In {| href := py "http://[broken"; get_text := py "Broken" |}
         [ {| href := py "/p/john-smith-austin-tx";
              get_text := py "John Smith, Austin TX" |};
           {| href := py "http://[broken"; get_text := py "Broken" |} ])
    by (right; left; reflexivity).
  assert (H3 : startswith (py "#") (py "http://[broken") = false)
    by reflexivity.
  assert (H4 : demo_netloc_strict (py "http://[broken") = Raise ValueError)
    by reflexivity.
  split; [auto|].
  exact (@X9_malformed_href_voids_page true true demo_fetch_malformed
           demo_netloc_strict (py "people")
           (py "https://people.example.com/search") demo_query _ _ _
           H1 H2 H3 H4).
Defined.

(** Without the malformed link, the same page gives its matching link. *)
Example scrape_without_malformed_link :
  map url
    (best_effort_scrape true true
       (fun _ => Ok [ {| href := py "/p/john-smith-austin-tx";
                         get_text := py "John Smith, Austin TX" |} ])
       demo_netloc_strict (py "people")
       (py "https://people.example.com/search") demo_query)
  = [py "https://people.example.com/p/john-smith-austin-tx"].
Proof. vm_compute. reflexivity. Qed.

(* ================================================================== *)
(** * Further properties of the aggregation *)

Lemma dict_set_fresh {V} (k : str) (v : V) (d : list (str * V)) :
  ~ In k (map fst d) -> dict_set k v d = d ++ [(k, v)].
Proof.
  induction d as [|[k0 v0] d IH]; simpl; intros H; [reflexivity|].
  destruct (str_eqb k k0) eqn:E.
  - apply str_eqb_eq in E. subst k0. tauto.
  - rewrite IH by tauto. reflexivity.
Qed.

(** Rows with distinct addresses enter the dictionary one behind the
    other. *)
Lemma fold_dict_set_distinct (rows : list ResultItem) :
  forall d, NoDup (map fst d ++ map url rows) ->
    fold_left (fun d it => dict_set (url it) it d) rows d
    = d ++ map (fun it => (url it, it)) rows.
Proof.
  induction rows as [|it rows IH]; intros d H; simpl.
  - now rewrite app_nil_r.
  - simpl in H. apply NoDup_remove in H. destruct H as [H1 H2].
    rewrite dict_set_fresh.
    + rewrite IH.
      * now rewrite <- app_assoc.
      * rewrite map_app. simpl. rewrite <- app_assoc. simpl.
        apply NoDup_Add with (a := url it) (l := map fst d ++ map url rows).
        -- apply Add_app.
        -- split; assumption.
    + intros Hin. apply H2. apply in_or_app. now left.
Qed.

Lemma values_uniq_distinct (rows : list ResultItem) :
  NoDup (map url rows) -> values (uniq rows) = rows.
Proof.
  intros H. unfold uniq, values.
  rewrite fold_dict_set_distinct by exact H. simpl.
  rewrite map_map. simpl. apply map_id.
Qed.

Lemma aggregate_urls (per_site : list (list ResultItem)) :
  NoDup (map url (aggregate per_site))
  /\ incl (aggregate per_site) (concat per_site).
Proof.
  destruct (fold_dict_set_spec (concat per_site) rows_by_url_nil)
    as (Hwf & _ & Hin).
  fold (uniq (concat per_site)) in Hwf, Hin.
  pose proof (aggregate_perm per_site) as Hp. split.
  - eapply Permutation_NoDup; [apply Permutation_map, Hp|].
    rewrite (map_url_values Hwf). apply Hwf.
  - intros it Hit. apply Permutation_sym in Hp.
    apply (Permutation_in _ Hp) in Hit. apply Hin in Hit.
    destruct Hit as [Hit|[]]. exact Hit.
Qed.

Lemma aggregate_length (per_site : list (list ResultItem)) :
  length (aggregate per_site) <= length (concat per_site).
Proof.
  destruct (aggregate_urls per_site) as [Hn Hi].
  rewrite <- (length_map url (aggregate per_site)).
  rewrite <- (length_map url (concat per_site)).
  apply NoDup_incl_length; [assumption|].
  intros u Hu. apply in_map_iff in Hu. destruct Hu as (x & <- & Hx).
  apply in_map. now apply Hi.
Qed.

(** X10: the aggregation returns no more rows than it is given, and when
    the addresses of the rows are distinct it returns all of them, each
    once. *)
Theorem X10_aggregate_keeps_distinct_rows :
  forall per_site : list (list ResultItem),
    length (aggregate per_site) <= length (concat per_site)
    /\ (NoDup (map url (concat per_site)) ->
        Permutation (concat per_site) (aggregate per_site)).
Proof.
  intros per_site. split.
  - apply aggregate_length.
  - intros H. unfold aggregate. rewrite (values_uniq_distinct _ H).
    apply sort_reverse_perm.
Qed.

Lemma X10_aggregate_keeps_distinct_rows_witness :
  NoDup (map url (concat tied_rows))
  /\ Permutation (concat tied_rows) (aggregate tied_rows).
Proof.
  assert (H : NoDup (map url (concat tied_rows))).
  { simpl. repeat constructor; simpl; intuition discriminate. }
  split; [exact H|].
  exact (proj2 (X10_aggregate_keeps_distinct_rows tied_rows) H).
Defined.

Lemma sort_reverse_fixed {A K} (lt : K -> K -> bool) (key : A -> K)
    (l : list A) :
  StronglySorted (fun a b => lt (key a) (key b) = false) l ->
  sort_reverse lt key l = l.
Proof.
  induction 1 as [|x l Hs IH Hx]; [reflexivity|].
  change (sort_reverse lt key (x :: l))
    with (insert_desc lt key x (sort_reverse lt key l)).
  rewrite IH.
  destruct l as [|y l]; [reflexivity|]. simpl.
  inversion Hx; subst.
  match goal with H : lt (key x) (key y) = false |- _ => now rewrite H end.
Qed.

(** X11: aggregating the aggregated rows again changes nothing, when the
    scores are numbers: the result has distinct addresses and is in the
    final order. *)
Theorem X11_aggregate_idempotent :
  forall per_site : list (list ResultItem),
    Forall (Forall (fun x => is_number (score x))) per_site ->
    aggregate [aggregate per_site] = aggregate per_site.
Proof.
  intros per_site Hnum.
  assert (Hc : Forall (fun x => is_number (score x)) (concat per_site)).
  { apply Forall_concat. exact Hnum. }
  destruct (aggregate_sorted per_site Hc) as [HP Hs].
  destruct (aggregate_urls per_site) as [Hn _].
  unfold aggregate at 1. simpl concat. rewrite app_nil_r.
  rewrite (values_uniq_distinct _ Hn).
  apply sort_reverse_fixed.
  apply StronglySorted_impl
    with (P := fun x => is_number (score x))
         (R := fun a b => ~ key_lt (row_key a) (row_key b));
    [|assumption|assumption].
  intros a b Ha Hb Hab.
  destruct (key_ltb (score a, site a) (score b, site b)) eqn:E;
    [|reflexivity].
  apply (key_ltb_spec (row_key a) (row_key b) Ha Hb) in E. contradiction.
Qed.

Lemma X11_aggregate_idempotent_witness :
  Forall (Forall (fun x => is_number (score x))) tied_rows
  /\ aggregate [aggregate tied_rows] = aggregate tied_rows.
Proof.
  assert (H : Forall (Forall (fun x => is_number (score x))) tied_rows).
  { repeat constructor; discriminate. }
  split; [exact H|]. exact (@X11_aggregate_idempotent tied_rows H).
Defined.

(* ================================================================== *)
(** * The selection of sites *)

Lemma lookup_In {V} (k : str) (d : list (str * V)) (v : V) :
  lookup k d = Some v -> In (k, v) d.
Proof.
  unfold lookup. induction d as [|[k0 v0] d IH]; simpl; [discriminate|].
  destruct (str_eqb k k0) eqn:E.
  - apply str_eqb_eq in E. subst k0. simpl. intros H. injection H as ->.
    now left.
  - intros H. right. now apply IH.
Qed.

(** The members of the groups, expanded, are no groups. *)
Lemma expand_site_no_group (s : str) :
  Forall (fun x => lookup x SITE_GROUPS = None) (expand_site s).
Proof.
  unfold expand_site. destruct (lookup s SITE_GROUPS) as [items|] eqn:E.
  - apply lookup_In in E.
    repeat (destruct E as [E|E];
            [injection E as _ <-; vm_compute; repeat constructor|]).
    destruct E.
  - repeat constructor. assumption.
Qed.

(** X12: [flatten_sites_arg] returns no name of a group: a group is replaced
    by its sites, also the group [peoplecore] inside [brokers_plus]. *)
Theorem X12_flatten_leaves_no_group :
  forall arg : str,
    Forall (fun x => lookup x SITE_GROUPS = None) (flatten_sites_arg arg).
Proof.
  intros arg. unfold flatten_sites_arg.
  destruct (str_eqb arg (py "all")); [repeat constructor|].
  induction (map (fun s => lower (strip s))
                 (filter (fun s => truthy (strip s)) (split_on "," arg)))
    as [|s raw IH]; simpl; [constructor|].
  apply Forall_app. split; [apply expand_site_no_group|assumption].
Qed.

(** ** Upper case in the selection *)









(* ================================================================== *)
(** * The search addresses *)

Lemma index_nil {A} (i : Z) : index (@nil A) i = Raise IndexError.
Proof.
  unfold index. cbn [length].
  destruct ((0 <=? (if (i <? 0)%Z then (Z.of_nat 0 + i)%Z else i))%Z
            && ((if (i <? 0)%Z then (Z.of_nat 0 + i)%Z else i) <? Z.of_nat 0)%Z)
    eqn:E; [|reflexivity].
  destruct (nth_error _ _) eqn:N; [|reflexivity].
  destruct (Z.to_nat _) in N; discriminate N.
Qed.

Lemma fold_enumerate_if {A D} (f : D -> nat * A -> D) (l : list A) (d : D) :
  (if truthy l then fold_left f (enumerate 1 l) d else d)
  = fold_left f (enumerate 1 l) d.
Proof. destruct l; reflexivity. Qed.

(** [site_patterns] returns its dictionary unless the name is not empty and
    has no token, where [tokens[0]] raises. *)
Lemma site_patterns_cases (q : QueryParts) :
  (name q <> [] /\ split (name q) = []
   /\ site_patterns q = Raise IndexError)
  \/ ((name q = [] \/ split (name q) <> [])
      /\ exists first last,
           site_patterns q =
             Ok (fold_left
                   (fun d ie =>
                      dict_set (py "google_email_" ++ str_of_nat (fst ie))
                               (py "https://www.google.com/search?q=%22"
                                ++ enc (snd ie) ++ py "%22") d)
                   (enumerate 1 (emails q))
                   (fold_left
                      (fun d ip =>
                         dict_set (py "google_phone_" ++ str_of_nat (fst ip))
                                  (py "https://www.google.com/search?q="
                                   ++ enc (snd ip)) d)
                      (enumerate 1 (phones q))
                      (static_patterns q first last (or_empty (city q))
                                       (or_empty (state q)))))).
Proof.
  unfold site_patterns.
  destruct (truthy (name q)) eqn:Hn.
  - apply truthy_true in Hn.
    destruct (split (name q)) as [|t toks] eqn:Hs.
    + left. split; [assumption|]. split; [reflexivity|].
      cbn [length Nat.leb]. rewrite index_nil. reflexivity.
    + right. split; [right; discriminate|].
      assert (Ht : truthy (t :: toks) = true) by reflexivity.
      destruct (index_0_ok _ Ht) as (a & Ha & _).
      destruct (index_last_ok _ Ht) as (b & Hb & _).
      destruct (2 <=? length (t :: toks)); rewrite Ha; cbn [bind].
      * rewrite Hb. cbn [bind]. cbv beta iota zeta.
        rewrite !fold_enumerate_if. eauto.
      * cbv beta iota zeta. rewrite !fold_enumerate_if. eauto.
  - apply truthy_false in Hn. right. split; [now left|].
    cbn [bind]. cbv beta iota zeta. rewrite !fold_enumerate_if. eauto.
Qed.


Example site_patterns_blank_name :
  site_patterns {| name := py " "; city := None; state := None;
                   emails := []; phones := []; raw := py " " |}
  = Raise IndexError.
Proof. vm_compute. reflexivity. Qed.


(** ** The keys of the dictionary *)

Lemma str_of_nat_inj (i j : nat) : str_of_nat i = str_of_nat j -> i = j.
Proof.
  unfold str_of_nat. intros H.
  apply (f_equal string_of_list_ascii) in H.
  rewrite !string_of_list_ascii_of_string in H.
  apply (f_equal DecimalString.NilEmpty.uint_of_string) in H.
  rewrite !DecimalString.NilEmpty.usu in H. injection H as H.
  now apply DecimalNat.Unsigned.to_uint_inj.
Qed.

Lemma startswith_app (p x : str) : startswith p (p ++ x) = true.
Proof. apply startswith_prefix. eauto. Qed.

Lemma distinct_NoDup (l : list str) : distinct l = true -> NoDup l.
Proof.
  induction l as [|x l IH]; simpl; intros H; [constructor|].
  apply andb_true_iff in H. destruct H as [H1 H2].
  constructor; [|now apply IH].
  apply negb_true_iff in H1. now apply mem_false.
Qed.

Lemma map_fst_enumerate {A} (l : list A) :
  forall n, map fst (enumerate n l) = seq n (length l).
Proof. induction l as [|x l IH]; intros n; simpl; [|rewrite IH]; reflexivity. Qed.

Lemma enumerate_ge {A} (l : list A) :
  forall n ip, In ip (enumerate n l) -> n <= fst ip.
Proof.
  induction l as [|x l IH]; intros n ip H; simpl in H; [contradiction|].
  destruct H as [<-|H]; [simpl; lia|]. apply IH in H. lia.
Qed.

(** Numbered keys that are not in the dictionary are put behind it, in
    order. *)
Lemma fold_dict_set_enumerate (pref : str) (val : str -> str) (l : list str) :
  forall n d,
    (forall i, n <= i -> ~ In (pref ++ str_of_nat i) (keys d)) ->
    fold_left (fun d ip => dict_set (pref ++ str_of_nat (fst ip))
                                    (val (snd ip)) d)
              (enumerate n l) d
    = d ++ map (fun ip => (pref ++ str_of_nat (fst ip), val (snd ip)))
               (enumerate n l).
Proof.
  induction l as [|x l IH]; intros n d Hd; simpl.
  - now rewrite app_nil_r.
  - rewrite dict_set_fresh by (apply Hd; lia).
    rewrite IH.
    + now rewrite <- app_assoc.
    + intros i Hi. unfold keys. rewrite map_app. simpl.
      intros Hin. apply in_app_or in Hin.
      destruct Hin as [Hin|[E|[]]].
      * revert Hin. apply Hd. lia.
      * apply app_inv_head in E. apply str_of_nat_inj in E. lia.
Qed.

Lemma keys_static_patterns (q : QueryParts) (first last city0 state0 : str) :
  keys (static_patterns q first last city0 state0) = static_keys.
Proof. reflexivity. Qed.

Lemma static_keys_prefix (pref : str) (x : str) :
  forallb (fun k => negb (startswith pref k)) static_keys = true ->
  ~ In (pref ++ x) static_keys.
Proof.
  intros H Hin. rewrite forallb_forall in H. apply H in Hin.
  rewrite startswith_app in Hin. discriminate Hin.
Qed.

Lemma numbered_keys_NoDup (pref : str) (n m : nat) :
  NoDup (map (fun i => pref ++ str_of_nat i) (seq n m)).
Proof.
  apply Finite.Injective_map_NoDup; [|apply seq_NoDup].
  intros i j E. apply app_inv_head in E. now apply str_of_nat_inj.
Qed.

(** The dictionary of [site_patterns]: the literal, then the phones, then
    the emails. *)
Lemma site_patterns_entries (q : QueryParts) (pats : list (str * str)) :
  site_patterns q = Ok pats ->
  exists first last,
    pats =
      static_patterns q first last (or_empty (city q)) (or_empty (state q))
      ++ map (fun ip => (py "google_phone_" ++ str_of_nat (fst ip),
                         py "https://www.google.com/search?q="
                         ++ enc (snd ip)))
             (enumerate 1 (phones q))
      ++ map (fun ie => (py "google_email_" ++ str_of_nat (fst ie),
                         py "https://www.google.com/search?q=%22"
                         ++ enc (snd ie) ++ py "%22"))
             (enumerate 1 (emails q)).
Proof.
  intros H. destruct (site_patterns_cases q) as [(_ & _ & E)|[_ (f & l & E)]];
    rewrite E in H; [discriminate|].
  injection H as <-. exists f, l.
  rewrite (fold_dict_set_enumerate (py "google_phone_")
             (fun x => py "https://www.google.com/search?q=" ++ enc x)).
  - rewrite (fold_dict_set_enumerate (py "google_email_")
               (fun x => py "https://www.google.com/search?q=%22"
                         ++ enc x ++ py "%22")).
    + now rewrite <- app_assoc.
    + intros i _. unfold keys. rewrite map_app.
      intros Hin. apply in_app_or in Hin. destruct Hin as [Hin|Hin].
      * exact (static_keys_prefix (py "google_email_") _ eq_refl Hin).
      * apply in_map_iff in Hin. destruct Hin as (kv & Hk & Hin).
        apply in_map_iff in Hin. destruct Hin as (ip & <- & _).
        simpl in Hk. discriminate Hk.
  - intros i _ Hin.
    exact (static_keys_prefix (py "google_phone_") _ eq_refl Hin).
Qed.

(** X16: the dictionary of [site_patterns] has the 33 sites of its literal,
    then one Google search for each phone and for each email, numbered from
    1 in the order of the record; no key is there twice. *)
Theorem X16_site_patterns_keys :
  forall (q : QueryParts) (pats : list (str * str)),
    site_patterns q = Ok pats ->
    keys pats =
      static_keys
      ++ map (fun i => py "google_phone_" ++ str_of_nat i)
             (seq 1 (length (phones q)))
      ++ map (fun i => py "google_email_" ++ str_of_nat i)
             (seq 1 (length (emails q)))
    /\ NoDup (keys pats)
    /\ length pats = 33 + length (phones q) + length (emails q).
Proof.
  intros q pats H. apply site_patterns_entries in H.
  destruct H as (f & l & ->).
  assert (Hk : keys (static_patterns q f l (or_empty (city q))
                                     (or_empty (state q))
                     ++ map (fun ip => (py "google_phone_" ++ str_of_nat (fst ip),
                                        py "https://www.google.com/search?q="
                                        ++ enc (snd ip)))
                            (enumerate 1 (phones q))
                     ++ map (fun ie => (py "google_email_" ++ str_of_nat (fst ie),
                                        py "https://www.google.com/search?q=%22"
                                        ++ enc (snd ie) ++ py "%22"))
                            (enumerate 1 (emails q)))
               = static_keys
                 ++ map (fun i => py "google_phone_" ++ str_of_nat i)
                        (seq 1 (length (phones q)))
                 ++ map (fun i => py "google_email_" ++ str_of_nat i)
                        (seq 1 (length (emails q)))).
  { unfold keys. rewrite !map_app, !map_map. cbn [fst].
    rewrite <- !(map_fst_enumerate _ 1), !map_map.
    f_equal. }
  split; [exact Hk|]. split.
  - rewrite Hk. apply NoDup_app.
    + apply distinct_NoDup. vm_compute. reflexivity.
    + apply NoDup_app; try apply numbered_keys_NoDup.
      intros k Hp He. apply in_map_iff in Hp. destruct Hp as (i & <- & _).
      apply in_map_iff in He. destruct He as (j & E & _). discriminate E.
    + intros k Hs Hd. apply in_app_or in Hd.
      destruct Hd as [Hd|Hd]; apply in_map_iff in Hd;
        destruct Hd as (i & <- & _); revert Hs;
        apply static_keys_prefix; reflexivity.
  - rewrite <- (length_map fst). fold (keys
      (static_patterns q f l (or_empty (city q)) (or_empty (state q))
       ++ map (fun ip => (py "google_phone_" ++ str_of_nat (fst ip),
                          py "https://www.google.com/search?q="
                          ++ enc (snd ip)))
              (enumerate 1 (phones q))
       ++ map (fun ie => (py "google_email_" ++ str_of_nat (fst ie),
                          py "https://www.google.com/search?q=%22"
                          ++ enc (snd ie) ++ py "%22"))
              (enumerate 1 (emails q)))).
    rewrite Hk, !length_app, !length_map, !length_seq. reflexivity.
Qed.

Lemma X16_site_patterns_keys_witness :
  (exists pats,
     site_patterns demo_contact = Ok pats
     /\ keys pats =
          static_keys
          ++ [py "google_phone_1"; py "google_phone_2"; py "google_email_1"]
     /\ length pats = 36).
Proof.
  destruct (site_patterns demo_contact) as [pats|e] eqn:E;
    [|vm_compute in E; discriminate E].
  exists pats. split; [reflexivity|].
  destruct (@X16_site_patterns_keys demo_contact pats E) as (H1 & _ & H3).
  split; [exact H1|exact H3].
Defined.

(** ** The characters of the addresses *)

Lemma forallb_Forall_true {A} (f : A -> bool) (l : list A) :
  forallb f l = true -> Forall (fun x => f x = true) l.
Proof. intros H. apply Forall_forall. now apply forallb_forall. Qed.

Lemma quote_char_url (c : ascii) :
  forallb url_char
    (if always_safe c then [c]
     else if Ascii.eqb c " " then ["+"%char]
          else flat_map percent (utf8 c)) = true.
Proof. destruct c as [[] [] [] [] [] [] [] []]; reflexivity. Qed.

(** An encoded text holds safe characters, plus signs and percent signs
    only. *)
Lemma quote_plus_url (s : str) :
  Forall (fun c => url_char c = true) (quote_plus s).
Proof.
  unfold quote_plus. induction s as [|c s IH]; simpl; [constructor|].
  apply Forall_app. split; [|exact IH].
  apply forallb_Forall_true. apply quote_char_url.
Qed.

Lemma quote_plus_no_space (s : str) : ~ In " "%char (quote_plus s).
Proof.
  intros H. pose proof (quote_plus_url s) as HF.
  rewrite Forall_forall in HF. apply HF in H. discriminate H.
Qed.

Ltac url_chars :=
  repeat first
    [ apply Forall_app; split
    | apply quote_plus_url
    | apply forallb_Forall_true; reflexivity ].

Lemma static_patterns_url (q : QueryParts) (first last city0 state0 : str) :
  Forall (fun kv => startswith (py "https://") (snd kv) = true
                    /\ Forall (fun c => url_char c = true) (snd kv))
         (static_patterns q first last city0 state0).
Proof.
  unfold static_patterns, enc.
  repeat (apply Forall_cons;
          [split; [reflexivity|cbn [snd]; url_chars]|]).
  apply Forall_nil.
Qed.

(** X17: every address of [site_patterns] starts with [https://] and is
    made of letters, digits and the characters [_ . - ~ + % : / ? = &] only:
    whatever the record holds, its texts enter the addresses encoded, and no
    blank, quote or other character of the record gets through. *)
Theorem X17_site_patterns_addresses_encoded :
  forall (q : QueryParts) (pats : list (str * str)),
    site_patterns q = Ok pats ->
    Forall (fun kv => startswith (py "https://") (snd kv) = true
                      /\ Forall (fun c => url_char c = true) (snd kv))
           pats.
Proof.
  intros q pats H. apply site_patterns_entries in H.
  destruct H as (f & l & ->).
  apply Forall_app. split; [apply static_patterns_url|].
  apply Forall_app. split; apply Forall_map; apply Forall_forall;
    intros ip _; cbn [snd]; unfold enc; (split; [reflexivity|url_chars]).
Qed.

Lemma X17_site_patterns_addresses_encoded_witness :
  exists pats,
    site_patterns demo_contact = Ok pats
    /\ Forall (fun kv => startswith (py "https://") (snd kv) = true
                         /\ Forall (fun c => url_char c = true) (snd kv))
              pats.
Proof.
  destruct (site_patterns demo_contact) as [pats|e] eqn:E;
    [|vm_compute in E; discriminate E].
  exists pats. split; [reflexivity|].
  exact (@X17_site_patterns_addresses_encoded demo_contact pats E).
Defined.

(* ================================================================== *)
(** * The selection of [main] *)

Lemma filter_all {A} (f : A -> bool) (l : list A) :
  (forall x, In x l -> f x = true) -> filter f l = l.
Proof.
  intros H. apply forallb_filter_id. apply forallb_forall. exact H.
Qed.

Lemma filter_by_own_keys (d : list (str * str)) :
  filter (fun kv => mem (fst kv) (keys d)) d = d.
Proof.
  apply filter_all. intros kv Hkv. apply mem_In. unfold keys.
  now apply in_map.
Qed.

Lemma lower_nil (s : str) : lower s = [] -> s = [].
Proof. destruct s; [reflexivity|discriminate]. Qed.

(** A name that reads ["all"] once stripped and put in lower case is in the
    raw list of [flatten_sites_arg]. *)
Lemma raw_sites_In (x arg : str) :
  x <> [] ->
  In x (map (fun s => lower (strip s)) (split_on "," arg)) ->
  In x (map (fun s => lower (strip s))
            (filter (fun s => truthy (strip s)) (split_on "," arg))).
Proof.
  intros Hx H. apply in_map_iff in H. destruct H as (s & E & Hs).
  apply in_map_iff. exists s. split; [assumption|].
  apply filter_In. split; [assumption|].
  apply truthy_true. intros E'. rewrite E' in E. simpl in E. congruence.
Qed.

Lemma wanted_list_all (patterns : list (str * str)) (sites : str) :
  In (py "all") (map (fun s => lower (strip s)) (split_on "," sites)) ->
  wanted_list patterns sites = keys patterns.
Proof.
  intros H. unfold wanted_list.
  destruct (str_eqb sites (py "all")) eqn:E; [reflexivity|].
  replace (mem (py "all") (flatten_sites_arg sites)) with true;
    [reflexivity|].
  symmetry. apply mem_In. unfold flatten_sites_arg. rewrite E.
  apply in_flat_map. exists (py "all"). split.
  - apply raw_sites_In; [discriminate|assumption].
  - now left.
Qed.

(** X18: when one of the names given, stripped and put in lower case, is
    ["all"], every pattern is selected, whatever the other names are. *)
Theorem X18_all_selects_every_pattern :
  forall (patterns : list (str * str)) (sites : str),
    In (py "all") (map (fun s => lower (strip s)) (split_on "," sites)) ->
    filtered patterns sites = patterns.
Proof.
  intros patterns sites H. unfold filtered.
  rewrite (wanted_list_all patterns sites H). apply filter_by_own_keys.
Qed.

Lemma X18_all_selects_every_pattern_witness :
  In (py "all")
     (map (fun s => lower (strip s)) (split_on "," (py "spokeo, ALL ,nosuch")))
  /\ filtered [(py "whitepages", py "https://w"); (py "spokeo", py "https://s")]
              (py "spokeo, ALL ,nosuch")
     = [(py "whitepages", py "https://w"); (py "spokeo", py "https://s")].
Proof.
  assert (H : In (py "all")
                (map (fun s => lower (strip s))
                     (split_on "," (py "spokeo, ALL ,nosuch")))).
  { vm_compute. right. left. reflexivity. }
  split; [exact H|].
  exact (@X18_all_selects_every_pattern
           [(py "whitepages", py "https://w"); (py "spokeo", py "https://s")]
           (py "spokeo, ALL ,nosuch") H).
Defined.

(** ** The coercion of [--safe-discovery] *)

Lemma split_on_app_sep (sep : ascii) (x r : str) :
  ~ In sep x -> split_on sep (x ++ sep :: r) = x :: split_on sep r.
Proof.
  induction x as [|c x IH]; intros H; simpl.
  - now rewrite Ascii.eqb_refl.
  - destruct (Ascii.eqb c sep) eqn:E.
    + apply Ascii.eqb_eq in E. subst c. exfalso. apply H. now left.
    + rewrite IH; [reflexivity|]. intros Hin. apply H. now right.
Qed.

(** Joining texts without comma with a comma and splitting again gives the
    texts. *)
Lemma split_on_join (sep : ascii) (l : list str) :
  l <> [] -> Forall (fun s => ~ In sep s) l ->
  split_on sep (join [sep] l) = l.
Proof.
  intros Hne H. induction H as [|x l Hx Hl IH]; [now contradiction Hne|].
  destruct l as [|y l].
  - simpl. now apply split_on_absent.
  - change (join [sep] (x :: y :: l)) with (x ++ sep :: join [sep] (y :: l)).
    rewrite split_on_app_sep by exact Hx.
    rewrite IH; [reflexivity|discriminate].
Qed.

Lemma split_on_sep_free (sep : ascii) (s : str) :
  Forall (fun seg => ~ In sep seg) (split_on sep s).
Proof.
  induction s as [|c s IH]; simpl.
  - repeat constructor. intros [].
  - destruct (Ascii.eqb c sep) eqn:E.
    + constructor; [intros []|assumption].
    + destruct (split_on sep s) as [|t r]; [repeat constructor|].
      * intros [->|[]]. rewrite Ascii.eqb_refl in E. discriminate E.
      * inversion IH; subst. constructor; [|assumption].
        intros [->|Hin]; [|contradiction].
        rewrite Ascii.eqb_refl in E. discriminate E.
Qed.

Lemma In_lstrip (c : ascii) (s : str) : In c (lstrip s) -> In c s.
Proof.
  induction s as [|d s IH]; simpl; [auto|].
  destruct (isspace d); [|auto]. intros H. right. now apply IH.
Qed.

Lemma In_strip (c : ascii) (s : str) : In c (strip s) -> In c s.
Proof.
  unfold strip, rstrip. intros H. apply in_rev in H.
  apply In_lstrip in H. apply in_rev in H. now apply In_lstrip in H.
Qed.

Lemma parts_of_comma_free (s : str) :
  Forall (fun p => ~ In ","%char p) (parts_of s).
Proof.
  unfold parts_of. apply Forall_map. apply Forall_forall. intros seg Hseg.
  apply filter_In in Hseg. destruct Hseg as [Hseg _].
  pose proof (split_on_sep_free "," s) as HF. rewrite Forall_forall in HF.
  intros Hin. apply In_strip in Hin. exact (HF _ Hseg Hin).
Qed.

Lemma In_insert_at {A} (i : nat) (x y : A) (l : list A) :
  In y (insert_at i x l) <-> y = x \/ In y l.
Proof.
  unfold insert_at. rewrite in_app_iff. simpl.
  assert (H : In y l <-> In y (firstn i l) \/ In y (skipn i l)).
  { rewrite <- in_app_iff. now rewrite firstn_skipn. }
  rewrite H. intuition congruence.
Qed.

(** The groups after the coercion: the groups given, with [google] and
    [startpage] among them, none with a comma. *)
Lemma safe_discovery_groups (sites : str) :
  str_eqb sites (py "all") = false ->
  exists wg,
    safe_discovery_sites sites = join (py ",") wg
    /\ In (py "google") wg /\ In (py "startpage") wg
    /\ Forall (fun p => ~ In ","%char p) wg.
Proof.
  intros E. unfold safe_discovery_sites. rewrite E.
  set (wg0 := parts_of sites).
  set (wg1 := if negb (mem (py "google") wg0)
              then insert_at 0 (py "google") wg0 else wg0).
  set (wg2 := if negb (mem (py "startpage") wg1)
              then insert_at 1 (py "startpage") wg1 else wg1).
  assert (H0 : Forall (fun p => ~ In ","%char p) wg0)
    by apply parts_of_comma_free.
  assert (G1 : In (py "google") wg1).
  { unfold wg1. destruct (mem (py "google") wg0) eqn:M; cbn [negb].
    - now apply mem_In.
    - apply In_insert_at. now left. }
  assert (H1 : Forall (fun p => ~ In ","%char p) wg1).
  { unfold wg1. destruct (negb (mem (py "google") wg0)); [|assumption].
    apply Forall_forall. intros p Hp. apply In_insert_at in Hp.
    destruct Hp as [->|Hp].
    - vm_compute. intuition discriminate.
    - rewrite Forall_forall in H0. now apply H0. }
  exists wg2. split; [reflexivity|]. split; [|split].
  - unfold wg2. destruct (negb (mem (py "startpage") wg1)); [|assumption].
    apply In_insert_at. now right.
  - unfold wg2. destruct (mem (py "startpage") wg1) eqn:M; cbn [negb].
    + now apply mem_In.
    + apply In_insert_at. now left.
  - unfold wg2. destruct (negb (mem (py "startpage") wg1)); [|assumption].
    apply Forall_forall. intros p Hp. apply In_insert_at in Hp.
    destruct Hp as [->|Hp].
    + vm_compute. intuition discriminate.
    + rewrite Forall_forall in H1. now apply H1.
Qed.

Lemma safe_discovery_wanted (patterns : list (str * str)) (sites k : str) :
  In k discovery_keys -> In k (keys patterns) ->
  In k (wanted_list patterns (safe_discovery_sites sites)).
Proof.
  intros Hk Hp. unfold wanted_list.
  destruct (str_eqb (safe_discovery_sites sites) (py "all")) eqn:E1;
    [assumption|].
  destruct (mem (py "all") (flatten_sites_arg (safe_discovery_sites sites)));
    [assumption|].
  unfold flatten_sites_arg. rewrite E1.
  destruct (str_eqb sites (py "all")) eqn:E.
  - unfold safe_discovery_sites. rewrite E.
    vm_compute. vm_compute in Hk. tauto.
  - destruct (safe_discovery_groups sites E) as (wg & Hs & Hg & Hst & Hc).
    rewrite Hs. change (py ",") with [","%char].
    rewrite split_on_join; [|intros ->; contradiction|assumption].
    assert (Hraw : forall g, In g wg -> truthy (strip g) = true ->
              In (lower (strip g))
                 (map (fun s => lower (strip s))
                      (filter (fun s => truthy (strip s)) wg))).
    { intros g Hgw Hgt. apply in_map_iff. exists g. split; [reflexivity|].
      apply filter_In. auto. }
    apply in_flat_map.
    destruct Hk as [<-|[<-|[<-|[<-|[]]]]].
    + exists (py "google"). split; [apply (Hraw _ Hg); reflexivity|].
      vm_compute. tauto.
    + exists (py "google"). split; [apply (Hraw _ Hg); reflexivity|].
      vm_compute. tauto.
    + exists (py "startpage"). split; [apply (Hraw _ Hst); reflexivity|].
      vm_compute. tauto.
    + exists (py "startpage"). split; [apply (Hraw _ Hst); reflexivity|].
      vm_compute. tauto.
Qed.

(** X19: after the coercion of [--safe-discovery], the four sites of the
    groups [google] and [startpage] are selected whenever the patterns have
    them, whatever sites were asked for. *)
Theorem X19_safe_discovery_selects_discovery_sites :
  forall (patterns : list (str * str)) (sites k : str),
    In k discovery_keys -> In k (keys patterns) ->
    In k (keys (filtered patterns (safe_discovery_sites sites))).
Proof.
  intros patterns sites k Hk Hp. unfold filtered, keys in *.
  apply in_map_iff in Hp. destruct Hp as (kv & <- & Hkv).
  apply in_map. apply filter_In. split; [assumption|].
  apply mem_In. apply safe_discovery_wanted; [assumption|].
  unfold keys. now apply in_map.
Qed.

Lemma X19_safe_discovery_selects_discovery_sites_witness :
  (In (py "google_site_spokeo") discovery_keys
   /\ In (py "google_site_spokeo")
         (keys [(py "spokeo", py "https://s");
                (py "google_site_spokeo", py "https://g")]))
  /\ In (py "google_site_spokeo")
        (keys (filtered [(py "spokeo", py "https://s");
                         (py "google_site_spokeo", py "https://g")]
                        (safe_discovery_sites (py "Spokeo")))).
Proof.
  assert (H1 : In (py "google_site_spokeo") discovery_keys).
  { vm_compute. tauto. }
  assert (H2 : In (py "google_site_spokeo")
                  (keys [(py "spokeo", py "https://s");
                         (py "google_site_spokeo", py "https://g")])).
  { vm_compute. tauto. }
  split; [split; assumption|].
  exact (@X19_safe_discovery_selects_discovery_sites _ (py "Spokeo") _ H1 H2).
Defined.

(* ================================================================== *)
(** * The listing of the search addresses *)

Lemma opened_links_cons (e : event) (t : list event) :
  opened_links (e :: t)
  = match e with Opened l => l :: opened_links t | _ => opened_links t end.
Proof. now destruct e. Qed.

Lemma printed_lines_cons (e : event) (t : list event) :
  printed_lines (e :: t)
  = match e with
    | Printed s l => (s, l) :: printed_lines t
    | _ => printed_lines t
    end.
Proof. now destruct e. Qed.

(** The counter and the tabs opened from a state of the loop on stay under
    the limit, or at the counter when it is over the limit already. *)
Lemma search_urls_count (safe_discovery open no_open_non_google : bool)
    (limit_open : Z) (try_open : nat -> str -> bool)
    (items : list (str * str)) :
  forall (count_opened : Z) (calls : nat),
    (count_opened
     + Z.of_nat (length (opened_links
                           (search_urls safe_discovery open
                              no_open_non_google limit_open try_open
                              count_opened calls items)))
     <= Z.max count_opened limit_open)%Z.
Proof.
  induction items as [|[s link] items IH]; intros c n; cbn [search_urls].
  - simpl. lia.
  - destruct (safe_discovery && negb (is_discovery s)); [apply IH|].
    rewrite opened_links_cons.
    destruct (open && (c <? limit_open)%Z) eqn:Hc; [|apply IH].
    apply andb_true_iff in Hc. destruct Hc as [_ Hc].
    apply Z.ltb_lt in Hc.
    destruct (no_open_non_google && negb (is_discovery s)); [apply IH|].
    destruct (try_open n link); rewrite opened_links_cons.
    + specialize (IH (c + 1)%Z (S n)). cbn [length]. lia.
    + apply IH.
Qed.

Lemma search_urls_without_open (safe_discovery no_open_non_google : bool)
    (limit_open : Z) (try_open : nat -> str -> bool)
    (items : list (str * str)) :
  forall (count_opened : Z) (calls : nat),
    search_urls safe_discovery false no_open_non_google limit_open try_open
                count_opened calls items
    = map (fun kv => Printed (fst kv) (snd kv))
          (filter (fun kv => negb (safe_discovery
                                   && negb (is_discovery (fst kv))))
                  items).
Proof.
  induction items as [|[s link] items IH]; intros c n;
    cbn [search_urls filter fst]; [reflexivity|].
  destruct (safe_discovery && negb (is_discovery s)); cbn [negb andb map];
    [apply IH|].
  cbn [fst snd]. f_equal. apply IH.
Qed.

(** X20: the loop under [Search URLs:] opens [limit_open] tabs at most, and
    none when the limit is not positive; without [--open] it does nothing
    but print, one line for each entry that [--safe-discovery] lets
    through. *)
Theorem X20_open_tabs_limited :
  forall (safe_discovery open no_open_non_google : bool) (limit_open : Z)
         (try_open : nat -> str -> bool) (items : list (str * str)),
    (Z.of_nat (length (opened_links
                         (search_urls safe_discovery open no_open_non_google
                                      limit_open try_open 0 0 items)))
     <= Z.max 0 limit_open)%Z
    /\ search_urls safe_discovery false no_open_non_google limit_open
                   try_open 0 0 items
       = map (fun kv => Printed (fst kv) (snd kv))
             (filter (fun kv => negb (safe_discovery
                                      && negb (is_discovery (fst kv))))
                     items).
Proof.
  intros sd op nong limit try_open items. split.
  - pose proof (search_urls_count sd op nong limit try_open items 0 0) as H.
    lia.
  - apply search_urls_without_open.
Qed.

Lemma search_urls_printed (safe_discovery open no_open_non_google : bool)
    (limit_open : Z) (try_open : nat -> str -> bool)
    (items : list (str * str)) :
  forall (count_opened : Z) (calls : nat),
    printed_lines (search_urls safe_discovery open no_open_non_google
                               limit_open try_open count_opened calls items)
    = filter (fun kv => negb (safe_discovery
                              && negb (is_discovery (fst kv))))
             items.
Proof.
  induction items as [|[s link] items IH]; intros c n;
    cbn [search_urls filter fst]; [reflexivity|].
  destruct (safe_discovery && negb (is_discovery s)); cbn [negb];
    [apply IH|].
  rewrite printed_lines_cons. f_equal.
  destruct (open && (c <? limit_open)%Z); [|apply IH].
  destruct (no_open_non_google && negb (is_discovery s)); [apply IH|].
  destruct (try_open n link); rewrite printed_lines_cons; apply IH.
Qed.

Lemma search_urls_opened (safe_discovery open no_open_non_google : bool)
    (limit_open : Z) (try_open : nat -> str -> bool)
    (items : list (str * str)) (link : str) :
  forall (count_opened : Z) (calls : nat),
    In link (opened_links
               (search_urls safe_discovery open no_open_non_google
                            limit_open try_open count_opened calls items)) ->
    exists s, In (s, link) items
              /\ open = true
              /\ (safe_discovery || no_open_non_google = true ->
                  is_discovery s = true).
Proof.
  induction items as [|[s l] items IH]; intros c n; cbn [search_urls];
    [intros []|].
  assert (Hrec : forall c' n',
             In link (opened_links
                        (search_urls safe_discovery open no_open_non_google
                                     limit_open try_open c' n' items)) ->
             exists s0, In (s0, link) ((s, l) :: items)
                        /\ open = true
                        /\ (safe_discovery || no_open_non_google = true ->
                            is_discovery s0 = true)).
  { intros c' n' H. destruct (IH c' n' H) as (s0 & H1 & H2).
    exists s0. split; [now right|exact H2]. }
  destruct (safe_discovery && negb (is_discovery s)) eqn:Hsd;
    [apply Hrec|].
  rewrite opened_links_cons.
  destruct (open && (c <? limit_open)%Z) eqn:Hc; [|apply Hrec].
  destruct (no_open_non_google && negb (is_discovery s)) eqn:Hn;
    [apply Hrec|].
  destruct (try_open n l); rewrite opened_links_cons; [|apply Hrec].
  intros [<-|H]; [|now apply (Hrec _ _ H)].
  exists s. split; [now left|]. split.
  - now destruct open.
  - intros H. destruct (is_discovery s); [reflexivity|].
    destruct safe_discovery, no_open_non_google; discriminate.
Qed.

(** X21: the lines printed under [Search URLs:] are the selected entries,
    in the order of the dictionary, all of them without [--safe-discovery]
    and those of the sites [google_...] and [startpage_...] with it; a tab is
    opened only with [--open] and only for an entry of the selection, and
    with [--safe-discovery] or [--no-open-non-google] only for a site
    [google_...] or [startpage_...]. *)
Theorem X21_listing_discovery_only :
  forall (safe_discovery open no_open_non_google : bool) (limit_open : Z)
         (try_open : nat -> str -> bool) (items : list (str * str)),
    printed_lines (search_urls safe_discovery open no_open_non_google
                               limit_open try_open 0 0 items)
    = filter (fun kv => negb safe_discovery || is_discovery (fst kv)) items
    /\ forall link,
         In link (opened_links
                    (search_urls safe_discovery open no_open_non_google
                                 limit_open try_open 0 0 items)) ->
         exists s, In (s, link) items
                   /\ open = true
                   /\ (safe_discovery || no_open_non_google = true ->
                       is_discovery s = true).
Proof.
  intros sd op nong limit try_open items. split.
  - rewrite search_urls_printed. apply filter_ext. intros [s l].
    cbn [fst]. now destruct sd, (is_discovery s).
  - intros link. apply search_urls_opened.
Qed.

(* ================================================================== *)
(** * The rows of [main] *)

Lemma best_effort_scrape_site (httpx_present BeautifulSoup_present : bool)
    (fetch : str -> result (list anchor)) (netloc : str -> result str)
    (site0 link : str) (q : QueryParts) :
  Forall (fun it => site it = site0)
         (best_effort_scrape httpx_present BeautifulSoup_present fetch
                             netloc site0 link q).
Proof.
  unfold best_effort_scrape.
  destruct (negb httpx_present || negb BeautifulSoup_present);
    [constructor|].
  destruct (scrape_try fetch netloc site0 link q) as [items|e] eqn:H;
    [|constructor].
  apply scrape_try_items in H.
  destruct H as (page & nl & domain & _ & _ & _ & H1 & _).
  eapply Forall_impl; [|exact H1].
  intros it (a & _ & _ & pn & host & H). tauto.
Qed.

Lemma concat_length_bound {A B} (f : A -> list B) (k : nat) (l : list A) :
  (forall a, length (f a) <= k) ->
  length (concat (map f l)) <= k * length l.
Proof.
  intros H. induction l as [|a l IH]; simpl; [lia|].
  rewrite length_app. specialize (H a). nia.
Qed.

(** X22: the rows that [main] prints and writes are in the final order
    without any assumption, no two of them have the same address, each has a
    score of 0.4 at least, a title of 120 characters at most and the
    identifier of a selected site, and there are 15 of them for each selected
    site at most; without [--scrape], and without [httpx] or [bs4], there is
    none. *)
Theorem X22_rows_of_main :
  forall (scrape httpx_present BeautifulSoup_present : bool)
         (fetch : str -> result (list anchor)) (netloc : str -> result str)
         (q : QueryParts) (items : list (str * str)),
    StronglySorted (fun a b => score_desc a b /\ tie_site_desc a b)
      (main_rows scrape httpx_present BeautifulSoup_present fetch netloc q
                 items)
    /\ NoDup (map url (main_rows scrape httpx_present BeautifulSoup_present
                                 fetch netloc q items))
    /\ Forall (fun it => fleb f0_4 (score it) = true
                         /\ length (title it) <= 120
                         /\ In (site it) (keys items))
              (main_rows scrape httpx_present BeautifulSoup_present fetch
                         netloc q items)
    /\ length (main_rows scrape httpx_present BeautifulSoup_present fetch
                         netloc q items) <= 15 * length items
    /\ main_rows false httpx_present BeautifulSoup_present fetch netloc q
                 items = []
    /\ main_rows scrape false BeautifulSoup_present fetch netloc q items = []
    /\ main_rows scrape httpx_present false fetch netloc q items = [].
Proof.
  intros sc hp bp fetch netloc q items.
  assert (Hnil : StronglySorted
                   (fun a b => score_desc a b /\ tie_site_desc a b)
                   (aggregate [])
                 /\ NoDup (map url (aggregate []))
                 /\ Forall (fun it => fleb f0_4 (score it) = true
                                      /\ length (title it) <= 120
                                      /\ In (site it) (keys items))
                           (aggregate [])
                 /\ length (aggregate []) <= 15 * length items).
  { change (aggregate []) with (@nil ResultItem).
    repeat split; try constructor. simpl. lia. }
  assert (Hoff : forall b1 b2,
             negb b1 || negb b2 = true ->
             main_rows sc b1 b2 fetch netloc q items = []).
  { intros b1 b2 H. unfold main_rows.
    destruct (sc && truthy items); [|reflexivity]. now rewrite H. }
  assert (Hon : StronglySorted
                  (fun a b => score_desc a b /\ tie_site_desc a b)
                  (main_rows sc hp bp fetch netloc q items)
                /\ NoDup (map url (main_rows sc hp bp fetch netloc q items))
                /\ Forall (fun it => fleb f0_4 (score it) = true
                                     /\ length (title it) <= 120
                                     /\ In (site it) (keys items))
                          (main_rows sc hp bp fetch netloc q items)
                /\ length (main_rows sc hp bp fetch netloc q items)
                   <= 15 * length items).
  { unfold main_rows.
    destruct (sc && truthy items);
      [destruct (negb hp || negb bp)|]; try exact Hnil.
    split; [apply aggregate_of_scrapes_sorted|].
    split; [apply aggregate_urls|]. split.
    - apply Forall_forall. intros it Hit.
      apply (proj2 (aggregate_urls _)) in Hit.
      apply in_concat in Hit. destruct Hit as (l & Hl & Hit).
      apply in_map_iff in Hl. destruct Hl as ([s u] & <- & Hsu).
      cbn [fst snd] in Hit.
      pose proof (best_effort_scrape_facts hp bp fetch netloc s u q)
        as (Hk & _).
      pose proof (best_effort_scrape_site hp bp fetch netloc s u q) as Hs.
      rewrite Forall_forall in Hk, Hs.
      destruct (Hk it Hit) as (H1 & _ & H2). rewrite (Hs it Hit).
      split; [assumption|]. split; [assumption|].
      unfold keys. apply in_map_iff. now exists (s, u).
    - etransitivity; [apply aggregate_length|].
      apply concat_length_bound. intros [s u].
      apply best_effort_scrape_facts. }
  destruct Hon as (H1 & H2 & H3 & H4).
  split; [exact H1|]. split; [exact H2|]. split; [exact H3|].
  split; [exact H4|]. split; [reflexivity|]. split.
  - apply Hoff. reflexivity.
  - apply Hoff. now rewrite orb_true_r.
Qed.

(* ================================================================== *)
(** * The opt-out links *)

(** The line of the listing for a site: its opt-out link, when it has one. *)
Lemma optout_links_printed (open_optout : bool) (limit_open : Z)
    (try_open : nat -> str -> bool) (wanted_list : list str) :
  forall (opened : Z) (calls : nat),
    printed_lines (optout_links open_optout limit_open try_open opened calls
                                wanted_list)
    = flat_map (fun s => match lookup s OPT_OUT_LINKS with
                         | Some link => [(s, link)]
                         | None => []
                         end)
               wanted_list.
Proof.
  induction wanted_list as [|s l IH]; intros c n;
    cbn [optout_links flat_map]; [reflexivity|].
  destruct (lookup s OPT_OUT_LINKS) as [link|]; [|apply IH].
  rewrite printed_lines_cons. cbn [app]. f_equal.
  destruct (open_optout && (c <? limit_open)%Z); [|apply IH].
  destruct (try_open n link); rewrite printed_lines_cons; apply IH.
Qed.

Lemma optout_links_count (open_optout : bool) (limit_open : Z)
    (try_open : nat -> str -> bool) (wanted_list : list str) :
  forall (opened : Z) (calls : nat),
    (opened
     + Z.of_nat (length (opened_links
                           (optout_links open_optout limit_open try_open
                                         opened calls wanted_list)))
     <= Z.max opened limit_open)%Z.
Proof.
  induction wanted_list as [|s l IH]; intros c n; cbn [optout_links].
  - simpl. lia.
  - destruct (lookup s OPT_OUT_LINKS) as [link|]; [|apply IH].
    rewrite opened_links_cons.
    destruct (open_optout && (c <? limit_open)%Z) eqn:Hc; [|apply IH].
    apply andb_true_iff in Hc. destruct Hc as [_ Hc].
    apply Z.ltb_lt in Hc.
    destruct (try_open n link); rewrite opened_links_cons.
    + specialize (IH (c + 1)%Z (S n)). cbn [length]. lia.
    + apply IH.
Qed.

Lemma optout_links_opened (open_optout : bool) (limit_open : Z)
    (try_open : nat -> str -> bool) (wanted_list : list str) (link : str) :
  forall (opened : Z) (calls : nat),
    In link (opened_links
               (optout_links open_optout limit_open try_open opened calls
                             wanted_list)) ->
    open_optout = true
    /\ exists s, In s wanted_list /\ lookup s OPT_OUT_LINKS = Some link.
Proof.
  induction wanted_list as [|s l IH]; intros c n; cbn [optout_links];
    [intros []|].
  assert (Hrec : forall c' n',
             In link (opened_links
                        (optout_links open_optout limit_open try_open
                                      c' n' l)) ->
             open_optout = true
             /\ exists s0, In s0 (s :: l)
                           /\ lookup s0 OPT_OUT_LINKS = Some link).
  { intros c' n' H. destruct (IH c' n' H) as (H1 & s0 & H2 & H3).
    split; [exact H1|]. exists s0. split; [now right|exact H3]. }
  destruct (lookup s OPT_OUT_LINKS) as [u|] eqn:Hu; [|apply Hrec].
  rewrite opened_links_cons.
  destruct (open_optout && (c <? limit_open)%Z) eqn:Hc; [|apply Hrec].
  destruct (try_open n u); rewrite opened_links_cons; [|apply Hrec].
  intros [<-|H]; [|now apply (Hrec _ _ H)].
  split; [now destruct open_optout|].
  exists s. split; [now left|exact Hu].
Qed.

(** X23: the listing under [Opt-out links:] has one line for each entry of
    the wanted list that has an opt-out link, in the order of the list and
    as often as the list names it; it opens [limit_open] tabs at most, only
    with [--open-optout], and only opt-out links of wanted sites. *)
Theorem X23_optout_listing :
  forall (open_optout : bool) (limit_open : Z)
         (try_open : nat -> str -> bool) (wanted_list : list str),
    printed_lines (optout_links open_optout limit_open try_open 0 0
                                wanted_list)
    = flat_map (fun s => match lookup s OPT_OUT_LINKS with
                         | Some link => [(s, link)]
                         | None => []
                         end)
               wanted_list
    /\ (Z.of_nat (length (opened_links
                            (optout_links open_optout limit_open try_open
                                          0 0 wanted_list)))
        <= Z.max 0 limit_open)%Z
    /\ forall link,
         In link (opened_links
                    (optout_links open_optout limit_open try_open 0 0
                                  wanted_list)) ->
         open_optout = true
         /\ exists s, In s wanted_list
                      /\ lookup s OPT_OUT_LINKS = Some link.
Proof.
  intros op limit try_open wanted_list. split; [|split].
  - apply optout_links_printed.
  - pose proof (optout_links_count op limit try_open wanted_list 0 0) as H.
    lia.
  - intros link. apply optout_links_opened.
Qed.

(** The keys of [site_patterns]: those of the literal, and keys that start
    with [google_]. *)
Lemma site_patterns_key (q : QueryParts) (pats : list (str * str))
    (s : str) :
  site_patterns q = Ok pats -> In s (keys pats) ->
  In s static_keys \/ startswith (py "google_") s = true.
Proof.
  intros H Hin. apply site_patterns_entries in H.
  destruct H as (f & l & ->). unfold keys in Hin.
  rewrite !map_app in Hin. apply in_app_or in Hin.
  destruct Hin as [Hin|Hin]; [now left|right].
  apply in_app_or in Hin.
  destruct Hin as [Hin|Hin]; apply in_map_iff in Hin;
    destruct Hin as (kv & <- & Hin); apply in_map_iff in Hin;
    destruct Hin as (ip & <- & _); cbn [fst].
  - change (py "google_phone_") with (py "google_" ++ py "phone_").
    rewrite <- app_assoc. apply startswith_app.
  - change (py "google_email_") with (py "google_" ++ py "email_").
    rewrite <- app_assoc. apply startswith_app.
Qed.

(** X24: the two tables agree.  A site for which [site_patterns] makes an
    address has an opt-out link exactly when it is no site [google_...] or
    [startpage_...]: every broker address of the tool comes with an opt-out
    link, and the discovery searches have none. *)
Theorem X24_broker_sites_have_optout :
  forall (q : QueryParts) (pats : list (str * str)) (s : str),
    site_patterns q = Ok pats ->
    In s (keys pats) ->
    (is_discovery s = false <-> exists link, lookup s OPT_OUT_LINKS = Some link).
Proof.
  intros q pats s H Hin.
  destruct (@site_patterns_key q pats s H Hin) as [Hs|Hs].
  - assert (Hall : forallb
                     (fun k => Bool.eqb (negb (is_discovery k))
                                 (match lookup k OPT_OUT_LINKS with
                                  | Some _ => true
                                  | None => false
                                  end))
                     static_keys = true) by (vm_compute; reflexivity).
    rewrite forallb_forall in Hall. specialize (Hall s Hs).
    apply Bool.eqb_prop in Hall.
    destruct (lookup s OPT_OUT_LINKS) as [link|];
      destruct (is_discovery s); try discriminate Hall; split;
      try discriminate; eauto.
    intros (link & E). discriminate E.
  - assert (Hd : is_discovery s = true).
    { unfold is_discovery. now rewrite Hs. }
    rewrite Hd. split; [discriminate|]. intros (link & E).
    apply lookup_In in E.
    assert (Hall : forallb (fun kv => negb (is_discovery (fst kv)))
                     OPT_OUT_LINKS = true) by (vm_compute; reflexivity).
    rewrite forallb_forall in Hall. specialize (Hall _ E).
    cbn [fst] in Hall. rewrite Hd in Hall. discriminate Hall.
Qed.

Lemma X24_broker_sites_have_optout_witness :
  exists pats,
    site_patterns demo_contact = Ok pats
    /\ In (py "spokeo") (keys pats)
    /\ (is_discovery (py "spokeo") = false
        <-> exists link, lookup (py "spokeo") OPT_OUT_LINKS = Some link).
Proof.
  destruct (site_patterns demo_contact) as [pats|e] eqn:E;
    [|vm_compute in E; discriminate E].
  exists pats.
  assert (Hin : In (py "spokeo") (keys pats)).
  { vm_compute in E. injection E as <-. vm_compute. tauto. }
  split; [reflexivity|]. split; [exact Hin|].
  exact (@X24_broker_sites_have_optout demo_contact pats (py "spokeo") E Hin).
Defined.
